(** * Goal tracker backend: streak tracking and goal statistics

    A shallow embedding of the statistics and streak code of the
    goal-tracker backend:

    - [User.updateStreak]            (src/models/User.js)
    - [Goal.getStatsByUser]          (src/models/Goal.js)
    - [Goal.getStatsByCategory]      (src/models/Goal.js)
    - [GET /api/stats/dashboard]     (stats router, summary block)
    - [GET /api/stats/progress]      (stats router, cumulative progress)

    Dates are JavaScript time values: milliseconds since the epoch, in [Z].
    Counters are JavaScript numbers holding integers, in [Z].  The wall clock
    read by [new Date()] is an explicit argument [now]. *)

From Stdlib Require Import ZArith QArith Qround Lia Lqa Sorted Permutation.
From Stdlib Require Import SpecFloat Qminmax.
From stdpp Require Import base list gmap strings sorting.

Local Open Scope Z_scope.

(** ** Calendar arithmetic *)

Module Calendar.

(** [1000 * 60 * 60 * 24], the divisor of [updateStreak]. *)
Definition msPerDay : Z := 1000 * 60 * 60 * 24.

(** [d.setHours(0, 0, 0, 0)] on a host whose local time is always
    [utc + tz] milliseconds, [tz] a fixed offset (UTC and every zone
    without daylight-saving time): the time value of the local midnight
    that starts the local day of [t].  [HostZone.setHours0] below is the
    same operation in a zone whose offset changes, and agrees with this
    one in a zone whose offset does not. *)
Definition setHours0 (tz t : Z) : Z := t - (t + tz) mod msPerDay.

(** The time value of UTC midnight of day [n] after the epoch. *)
Definition day (n : Z) : Z := n * msPerDay.

End Calendar.

(** ** Streak state ([stats.streak] of the user document) *)

Module Streak.
Import Calendar.

Record StreakState : Type := mkStreak {
  current : Z;
  longest : Z;
  lastActiveDate : option Z
}.

(** The field assignments of the method body. *)
Definition set_current (v : Z) (s : StreakState) : StreakState :=
  mkStreak v (longest s) (lastActiveDate s).
Definition set_longest (v : Z) (s : StreakState) : StreakState :=
  mkStreak (current s) v (lastActiveDate s).
Definition set_lastActiveDate (d : Z) (s : StreakState) : StreakState :=
  mkStreak (current s) (longest s) (Some d).

(** Errors a streak update could raise. *)
Inductive StreakError : Type := OutOfOrderActivity.

(** How a call of the method completes: it returns with the document in
    some state, or it throws and leaves the document in some state. *)
Inductive Completion : Type :=
| Returned (s : StreakState)
| Threw (e : StreakError) (s : StreakState).

(** Schema defaults of a new user document. *)
Definition initial : StreakState := mkStreak 0 0 None.

(** States in which the first-activity branch cannot lower [longest]: a
    date is stored, or [longest] has not yet counted past one. *)
Definition settled (s : StreakState) : Prop :=
  is_Some (lastActiveDate s) \/ longest s <= 1.

(** The invariant carried by the reachable states. *)
Definition streak_inv (s : StreakState) : Prop :=
  0 <= current s <= longest s /\
  (is_Some (lastActiveDate s) -> 1 <= longest s).

(** Clock readings on [n] consecutive days, the first at [first]. *)
Definition consecutiveDays (first : Z) (n : nat) : list Z :=
  map (fun i => first + Z.of_nat i * msPerDay) (seq 0 n).

(** The largest [current] among a list of states (0 for none). *)
Definition maxCurrent (l : list StreakState) : Z :=
  foldr (fun s m => Z.max (current s) m) 0 l.

Section WithTimeZone.
Variable tz : Z.

(** [Math.floor((today - lastActive) / (1000 * 60 * 60 * 24))] with both
    dates first truncated by [setHours(0,0,0,0)]. *)
Definition daysDiff (now last : Z) : Z :=
  (setHours0 tz now - setHours0 tz last) / msPerDay.

(** The mutation performed by [updateStreak] on [this.stats.streak]. *)
Definition streakAfter (now : Z) (this : StreakState) : StreakState :=
  let today := setHours0 tz now in
  let this' :=
    match lastActiveDate this with
    | Some last =>
        let lastActive := setHours0 tz last in
        let daysDiff := (today - lastActive) / msPerDay in
        if daysDiff =? 1 then
          let this1 := set_current (current this + 1) this in
          if current this1 >? longest this1
          then set_longest (current this1) this1
          else this1
        else if daysDiff >? 1 then
          set_current 1 this
        else this
    | None =>
        set_longest 1 (set_current 1 this)
    end in
  set_lastActiveDate today this'.

(** [updateStreak]: the body has no [throw]; it always reaches
    [this.save()] with the mutated document. *)
Definition updateStreak (now : Z) (this : StreakState) : Completion :=
  Returned (streakAfter now this).

(** State of the document after the call, however it completed. *)
Definition stateOf (c : Completion) : StreakState :=
  match c with
  | Returned s => s
  | Threw _ s => s
  end.

(** Successive calls at the clock readings [nows]. *)
Definition recordAll (nows : list Z) (s : StreakState) : StreakState :=
  fold_left (fun st now => stateOf (updateStreak now st)) nows s.

(** The states seen along the way, starting state included. *)
Fixpoint trace (nows : list Z) (s : StreakState) : list StreakState :=
  match nows with
  | [] => [s]
  | now :: rest => s :: trace rest (stateOf (updateStreak now s))
  end.

(** States reachable from the schema defaults by streak updates. *)
Inductive reachable : StreakState -> Prop :=
| reachable_initial : reachable initial
| reachable_update now s :
    reachable s -> reachable (stateOf (updateStreak now s)).

End WithTimeZone.
End Streak.

(** ** The host's time zone

    [setHours] works in the time zone of the host.  [Calendar.setHours0]
    and the definitions of [Streak] are the case of a zone whose offset
    never changes; here the same code is read in an arbitrary zone, whose
    offset may change with daylight-saving time. *)

Module HostZone.
Import Calendar Streak.

Definition msPerHour : Z := 1000 * 60 * 60.

(** A time zone as ECMAScript reads it, offsets in milliseconds:
    [offsetAt t] is [LocalTZA(t, true)], the offset of local time from UTC
    in force at the instant [t]; [offsetOfLocal l] is [LocalTZA(l, false)],
    the offset by which the local time value [l] is taken back to UTC. *)
Record Zone : Type := mkZone {
  offsetAt : Z -> Z;
  offsetOfLocal : Z -> Z
}.

(** The abstract operations of the language specification. *)
Definition LocalTime (z : Zone) (t : Z) : Z := t + offsetAt z t.
Definition UTC (z : Zone) (l : Z) : Z := l - offsetOfLocal z l.
Definition Day (t : Z) : Z := t / msPerDay.
Definition MakeDate (day time : Z) : Z := day * msPerDay + time.

(** [d.setHours(0, 0, 0, 0)]: the local day of [t] is kept, the time within
    the day becomes [MakeTime(0, 0, 0, 0) = 0], and the result is taken
    back to UTC. *)
Definition setHours0 (z : Zone) (t : Z) : Z :=
  UTC z (MakeDate (Day (LocalTime z t)) 0).

(** The local calendar day of an instant, as a day number. *)
Definition localDay (z : Zone) (t : Z) : Z := Day (LocalTime z t).

Section InZone.
Variable z : Zone.

(** [Math.floor((today - lastActive) / (1000 * 60 * 60 * 24))]. *)
Definition daysDiff (now last : Z) : Z :=
  (setHours0 z now - setHours0 z last) / msPerDay.

(** The mutation performed by [updateStreak] on [this.stats.streak]. *)
Definition streakAfter (now : Z) (this : StreakState) : StreakState :=
  let today := setHours0 z now in
  let this' :=
    match lastActiveDate this with
    | Some last =>
        let lastActive := setHours0 z last in
        let daysDiff := (today - lastActive) / msPerDay in
        if daysDiff =? 1 then
          let this1 := set_current (current this + 1) this in
          if current this1 >? longest this1
          then set_longest (current this1) this1
          else this1
        else if daysDiff >? 1 then
          set_current 1 this
        else this
    | None =>
        set_longest 1 (set_current 1 this)
    end in
  set_lastActiveDate today this'.

Definition updateStreak (now : Z) (this : StreakState) : Completion :=
  Returned (streakAfter now this).

(** Successive calls at the clock readings [nows]. *)
Definition recordAll (nows : list Z) (s : StreakState) : StreakState :=
  fold_left (fun st now => stateOf (updateStreak now st)) nows s.

End InZone.

(** A zone whose offset is [tz] at all times. *)
Definition fixedOffset (tz : Z) : Zone := mkZone (fun _ => tz) (fun _ => tz).

(** The day number of the civil date [y]-[m]-[d] (months from 1), counted
    from 1970-01-01. *)
Definition daysFromCivil (y m d : Z) : Z :=
  let y := if m <=? 2 then y - 1 else y in
  let era := y / 400 in
  let yoe := y - era * 400 in
  let doy := (153 * (if m >? 2 then m - 3 else m + 9) + 2) / 5 + d - 1 in
  let doe := yoe * 365 + yoe / 4 - yoe / 100 + doy in
  era * 146097 + doe - 719468.

(** The time value of [h] o'clock on the civil date [y]-[m]-[d], read in
    UTC: [Date.UTC(y, m - 1, d, h)]. *)
Definition dateUTC (y m d h : Z) : Z :=
  daysFromCivil y m d * msPerDay + h * msPerHour.

(** America/New_York in 2024: five hours behind UTC, and four hours behind
    from 2024-03-10 07:00 UTC (when local clocks go from 02:00 to 03:00)
    until 2024-11-03 06:00 UTC (when they go from 02:00 back to 01:00).  A
    local time that a change skips or repeats is read with the offset in
    force before the change. *)
Definition newYork2024 : Zone :=
  mkZone
    (fun t =>
       if (dateUTC 2024 3 10 7 <=? t) && (t <? dateUTC 2024 11 3 6)
       then -4 * msPerHour else -5 * msPerHour)
    (fun l =>
       if (dateUTC 2024 3 10 3 <=? l) && (l <? dateUTC 2024 11 3 2)
       then -4 * msPerHour else -5 * msPerHour).

End HostZone.

(** ** JavaScript and MongoDB numbers *)

Module Number.

(** Results of [/] and [*] are rounded to a representable double by a
    function [fl], in which the development is parametric.  What is assumed
    of it holds of IEEE 754 round-to-nearest on binary64 and of exact
    arithmetic alike: it is monotone, and it leaves a representable value
    (an integer of at most 53 bits scaled by a power of two) as it is. *)
Record faithful_rounding (fl : Q -> Q) : Prop := {
  fl_monotone : forall x y, (x <= y)%Q -> (fl x <= fl y)%Q;
  fl_exact : forall m k,
    Z.abs m < 2 ^ 53 -> 0 <= k <= 1022 ->
    (fl (inject_Z m / inject_Z (2 ^ k)) == inject_Z m / inject_Z (2 ^ k))%Q
}.

Section WithRounding.
Variable fl : Q -> Q.

(** JavaScript [x / y] and MongoDB [$divide: [x, y]]. *)
Definition divide (x y : Q) : Q := fl (x / y).

(** JavaScript [x * y] and MongoDB [$multiply: [x, y]]. *)
Definition multiply (x y : Q) : Q := fl (x * y).

End WithRounding.

(** The rounding of IEEE 754 binary64, by the Standard Library's
    specification of correctly rounded division: the double nearest to a
    rational is the rounded quotient of its numerator and denominator. *)
Definition Z2SF (z : Z) : spec_float :=
  match z with
  | Z0 => S754_zero false
  | Zpos p => S754_finite false p 0
  | Zneg p => S754_finite true p 0
  end.

Definition SF2Q (f : spec_float) : Q :=
  match f with
  | S754_finite s m e =>
      let v := if s then Zneg m else Zpos m in
      if 0 <=? e then inject_Z (v * 2 ^ e) else v # Z.to_pos (2 ^ (- e))
  | _ => 0%Q
  end.

Definition binary64 (q : Q) : Q :=
  SF2Q (SFdiv 53 1024 (Z2SF (Qnum q)) (Z2SF (Zpos (Qden q)))).

(** [Math.round(x)]: the nearest integer, a tie going towards plus
    infinity. *)
Definition Math_round (x : Q) : Z := Qfloor (x + (1 # 2)).

(** MongoDB [$round: [x, 0]]: the nearest integer, a tie going to the even
    neighbour. *)
Definition mongo_round (x : Q) : Z :=
  let n := Qfloor x in
  match (x - inject_Z n ?= 1 # 2)%Q with
  | Lt => n
  | Gt => n + 1
  | Eq => if Z.even n then n else n + 1
  end.

(** Round half up and round half to even, as relations between a rational
    and the integer it rounds to. *)
Definition round_half_up (x : Q) (n : Z) : Prop :=
  (inject_Z n - (1 # 2) <= x /\ x < inject_Z n + (1 # 2))%Q.

Definition round_half_even (x : Q) (n : Z) : Prop :=
  (inject_Z n - (1 # 2) <= x /\ x <= inject_Z n + (1 # 2))%Q /\
  ((x == inject_Z n - (1 # 2) \/ x == inject_Z n + (1 # 2))%Q ->
   Z.even n = true).

End Number.

(** ** Goal documents and the aggregation stages *)

Module Stats.
Import Number.

(** The fields of a goal document that the statistics read. *)
Record Goal : Type := mkGoal {
  userId : string;
  category : string;
  priority : string;
  completed : bool;
  deadline : Z;
  createdAt : Z;
  updatedAt : Z
}.

(** [$cond: [c, 1, 0]]. *)
Definition cond10 (c : bool) : Z := if c then 1 else 0.

(** A [$sum] accumulator over the documents of one group. *)
Definition sum_over (f : Goal -> Z) (docs : list Goal) : Z :=
  fold_left (fun acc g => acc + f g) docs 0.

(** [$match: { userId }]. *)
Definition matchUser (uid : string) (goals : list Goal) : list Goal :=
  filter (fun g => userId g = uid) goals.

(** The two counters every keyed [$group] stage of the code keeps:
    [$sum: 1] and [$sum: { $cond: [completed, 1, 0] }]. *)
Record Counts : Type := mkCounts { count : Z; completedCount : Z }.

Section Group.
Context {K : Type} `{Countable K}.
Variable key : Goal -> K.

(** One document arriving at its group. *)
Definition accumulate (g : Goal) (a : option Counts) : Counts :=
  match a with
  | None => mkCounts 1 (cond10 (completed g))
  | Some c => mkCounts (count c + 1) (completedCount c + cond10 (completed g))
  end.

(** [$group: { _id: key, count: {$sum: 1}, completed: {$sum: {$cond: ..}} }]:
    one entry per key value that occurs. *)
Definition group (docs : list Goal) : gmap K Counts :=
  fold_left (fun m g => <[key g := accumulate g (m !! key g)]> m) docs ∅.

(** The documents of [docs] that fall in the group of [k]. *)
Definition members (k : K) (docs : list Goal) : list Goal :=
  filter (fun g => key g = k) docs.

End Group.

(** Totals of a list of [$group] results. *)
Definition totalCount {K} (l : list (K * Counts)) : Z :=
  foldr (fun e acc => count e.2 + acc) 0 l.
Definition totalCompleted {K} (l : list (K * Counts)) : Z :=
  foldr (fun e acc => completedCount e.2 + acc) 0 l.

(** Number of completed documents of a list. *)
Definition completedIn (docs : list Goal) : Z :=
  Z.of_nat (length (filter (fun g => completed g = true) docs)).

(** A goal of user [uid] in category [cat] with completion flag [flag]. *)
Definition goal_of (uid cat : string) (flag : bool) (g : Goal) : Prop :=
  userId g = uid /\ category g = cat /\ completed g = flag.

(** *** [Goal.getStatsByUser] *)

Record UserStats : Type := mkUserStats {
  us_total : Z;
  us_completed : Z;
  us_overdue : Z
}.

(** [$group: { _id: null, ... }]: no document in, no group out. *)
Definition groupAll (now : Z) (docs : list Goal) : list UserStats :=
  match docs with
  | [] => []
  | _ :: _ =>
      [ mkUserStats
          (sum_over (fun _ => 1) docs)
          (sum_over (fun g => cond10 (completed g)) docs)
          (sum_over (fun g => cond10 (negb (completed g) && (deadline g <? now)))
                    docs) ]
  end.

(** [stats[0] || { total: 0, completed: 0, overdue: 0 }]. *)
Definition getStatsByUser (now : Z) (uid : string) (goals : list Goal)
  : UserStats :=
  let stats := groupAll now (matchUser uid goals) in
  match stats with
  | s :: _ => s
  | [] => mkUserStats 0 0 0
  end.

(** *** [Goal.getStatsByCategory] *)

Record CategoryStats : Type := mkCategoryStats {
  cs_category : string;
  cs_total : Z;
  cs_completed : Z;
  cs_percentage : Z
}.

Section WithRounding.
Variable fl : Q -> Q.

(** [$round: [{$multiply: [{$divide: [completed, total]}, 100]}, 0]].
    Every group holds at least one document, so [total] is never 0 where
    the pipeline evaluates this. *)
Definition percentage (completed total : Z) : Z :=
  mongo_round
    (multiply fl (divide fl (inject_Z completed) (inject_Z total)) 100).

(** The [$project] stage. *)
Definition project (e : string * Counts) : CategoryStats :=
  mkCategoryStats e.1 (count e.2) (completedCount e.2) (percentage (completedCount e.2) (count e.2)).

(** The documents come out in no promised order; here, in the order of
    the map's enumeration. *)
Definition getStatsByCategory (uid : string) (goals : list Goal)
  : list CategoryStats :=
  map project (map_to_list (group category (matchUser uid goals))).

(** *** Dashboard summary *)

(** [total > 0 ? Math.round((completed / total) * 100) : 0], the
    expression of the dashboard and of every progress point. *)
Definition completionRate (completed total : Z) : Z :=
  if total >? 0
  then Math_round
         (multiply fl (divide fl (inject_Z completed) (inject_Z total)) 100)
  else 0.

(** The value that is rounded: [(completed / total) * 100]. *)
Definition ratio (completed total : Z) : Q :=
  multiply fl (divide fl (inject_Z completed) (inject_Z total)) 100.

Record Summary : Type := mkSummary {
  sm_total : Z;
  sm_completed : Z;
  sm_active : Z;
  sm_overdue : Z;
  sm_completionRate : Z
}.

(** [Goal.countDocuments(query)]. *)
Definition countDocuments (query : Goal -> bool) (goals : list Goal) : Z :=
  Z.of_nat (length (List.filter query goals)).

(** The summary block of the dashboard over documents whose completion
    flag is a boolean; [Dashboard.dashboardSummary] below reads the flag as
    it is stored, [null] included. *)
Definition dashboardSummary (now : Z) (uid : string) (goals : list Goal)
  : Summary :=
  let isUser g := bool_decide (userId g = uid) in
  let totalGoals := countDocuments isUser goals in
  let completedGoals :=
    countDocuments (fun g => isUser g && completed g) goals in
  let activeGoals :=
    countDocuments (fun g => isUser g && negb (completed g)) goals in
  let overdueGoals :=
    countDocuments
      (fun g => isUser g && negb (completed g) && (deadline g <? now)) goals in
  mkSummary totalGoals completedGoals activeGoals overdueGoals
            (completionRate completedGoals totalGoals).

(** The dashboard's [byPriority] and [byCategory] blocks: counters only. *)
Definition priorityStats (uid : string) (goals : list Goal)
  : list (string * Counts) :=
  map_to_list (group priority (matchUser uid goals)).

Definition categoryStats (uid : string) (goals : list Goal)
  : list (string * Counts) :=
  map_to_list (group category (matchUser uid goals)).

(** *** Progress over time *)

Section Progress.
(** [$dateToString] with format [%Y-%m-%d] maps a creation time to a day
    key; [$sort: { _id: 1 }] orders the keys by [keyLe]. *)
Context {K : Type} `{Countable K}.
Variable dateToString : Z -> K.
Variable keyLe : K -> K -> Prop.
Context `{forall x y, Decision (keyLe x y)}.

Definition bucketLe (a b : K * Counts) : Prop := keyLe a.1 b.1.

(** [$match: { userId, createdAt: { $gte: startDate } }]. *)
Definition inWindow (uid : string) (startDate : Z) (goals : list Goal)
  : list Goal :=
  filter (fun g => userId g = uid /\ startDate <= createdAt g) goals.

Definition progressData (uid : string) (startDate : Z) (goals : list Goal)
  : list (K * Counts) :=
  merge_sort bucketLe
    (map_to_list
       (group (fun g => dateToString (createdAt g))
              (inWindow uid startDate goals))).

Record ProgressPoint : Type := mkPoint {
  pp_date : K;
  pp_total : Z;
  pp_completed : Z;
  pp_completionRate : Z
}.

(** [progressData.map(day => ...)] with the two running counters
    threaded through. *)
Fixpoint cumulate (cumulativeTotal cumulativeCompleted : Z)
  (days : list (K * Counts)) : list ProgressPoint :=
  match days with
  | [] => []
  | day :: rest =>
      let cumulativeTotal := cumulativeTotal + count day.2 in
      let cumulativeCompleted := cumulativeCompleted + completedCount day.2 in
      mkPoint day.1 cumulativeTotal cumulativeCompleted
              (completionRate cumulativeCompleted cumulativeTotal)
      :: cumulate cumulativeTotal cumulativeCompleted rest
  end.

Definition cumulativeProgress (uid : string) (startDate : Z)
  (goals : list Goal) : list ProgressPoint :=
  cumulate 0 0 (progressData uid startDate goals).

End Progress.
End WithRounding.

(** The UTC day number of a time value: the day that [%Y-%m-%d]
    spells out. *)
Definition utcDay (t : Z) : Z := t / Calendar.msPerDay.

(** *** Sample collections *)

(** Eight health goals of one user, one of them completed. *)
Definition oneOfEight : list Goal :=
  mkGoal "u1" "health" "medium" true 0 0 0
  :: repeat (mkGoal "u1" "health" "medium" false 0 0 0) 7.

(** Goals of two users created on days 0, 1 and 3. *)
Definition progressExample : list Goal :=
  [ mkGoal "u1" "health" "low" true 0 (3 * Calendar.msPerDay + 5) 0;
    mkGoal "u1" "health" "low" false 0 Calendar.msPerDay 0;
    mkGoal "u1" "skill" "high" false 0 (Calendar.msPerDay - 1) 0;
    mkGoal "u2" "health" "low" false 0 Calendar.msPerDay 0;
    mkGoal "u1" "career" "low" true 0 (Calendar.msPerDay + 7) 0 ].

End Stats.

(** ** The user document and the statistics routes built on the
    aggregations *)

Module StatsRoutes.
Import Number Stats.

(** The goals of [mine] that are overdue at [now]. *)
Definition overdueIn (now : Z) (mine : list Goal) : list Goal :=
  filter (fun g => completed g = false /\ deadline g < now) mine.

(** *** [User.updateStats] *)

(** The [firebaseUid] and the [stats] block of a user document. *)
Record UserDoc : Type := mkUserDoc {
  firebaseUid : string;
  totalGoals : Z;
  completedGoals : Z;
  streak : Streak.StreakState
}.

(** [updateStats]: copies [total] and [completed] of
    [Goal.getStatsByUser(this.firebaseUid)] into the document. *)
Definition updateStats (now : Z) (goals : list Goal) (this : UserDoc)
  : UserDoc :=
  let stats := getStatsByUser now (firebaseUid this) goals in
  mkUserDoc (firebaseUid this) (us_total stats) (us_completed stats)
            (streak this).

(** *** [GET /api/stats/progress]: the date range *)

(** The [switch (period)] that moves [startDate] back from now.  In a time
    zone with a fixed offset [setDate(getDate() - n)] moves the time value
    back by [n] days; [setFullYear(getFullYear() - 1)] is the calendar
    function [yearAgo].  [period] is [None] when the query has no such
    parameter, and then defaults to ['30d']. *)
Definition startDate (yearAgo : Z -> Z) (period : option string) (now : Z)
  : Z :=
  let period := default "30d" period in
  if String.eqb period "7d" then now - 7 * Calendar.msPerDay
  else if String.eqb period "30d" then now - 30 * Calendar.msPerDay
  else if String.eqb period "90d" then now - 90 * Calendar.msPerDay
  else if String.eqb period "1y" then yearAgo now
  else now - 30 * Calendar.msPerDay.

(** *** [GET /api/stats/achievements] *)

Record Achievement : Type := mkAchievement {
  id : string;
  name : string;
  description : string;
  icon : string;
  unlocked : bool
}.

Definition achievements (stats : UserStats) : list Achievement :=
  [ mkAchievement "first_goal" "First Step" "Create your first goal" "🎯"
      (us_total stats >=? 1);
    mkAchievement "first_completion" "Goal Getter" "Complete your first goal"
      "✅" (us_completed stats >=? 1);
    mkAchievement "ten_goals" "Ambitious" "Create 10 goals" "🚀"
      (us_total stats >=? 10);
    mkAchievement "ten_completions" "Achiever" "Complete 10 goals" "🏆"
      (us_completed stats >=? 10);
    mkAchievement "perfect_week" "Perfect Week" "Complete all goals in a week"
      "💯" false;
    mkAchievement "streak_7" "Consistent" "Maintain a 7-day streak" "🔥"
      false ].

Record AchievementSummary : Type := mkAchievementSummary {
  as_total : Z;
  as_unlocked : Z;
  as_percentage : Z
}.

Section WithRounding.
Variable fl : Q -> Q.

(** The [summary] block:
    [Math.round((unlockedCount / achievements.length) * 100)]. *)
Definition achievementSummary (l : list Achievement) : AchievementSummary :=
  let unlockedCount := Z.of_nat (length (List.filter unlocked l)) in
  mkAchievementSummary
    (Z.of_nat (length l)) unlockedCount
    (Math_round
       (multiply fl
          (divide fl (inject_Z unlockedCount) (inject_Z (Z.of_nat (length l))))
          100)).

Definition getAchievements (now : Z) (uid : string) (goals : list Goal)
  : list Achievement * AchievementSummary :=
  let stats := getStatsByUser now uid goals in
  (achievements stats, achievementSummary (achievements stats)).

End WithRounding.
End StatsRoutes.

(** ** The dashboard summary over the completion flag as stored *)

Module Dashboard.
Import Number Stats.

(** The fields of a goal document that the summary block reads.  The
    schema's [completed] is a Boolean that is not required and whose default
    replaces [undefined] only, so a document created with [completed: null]
    stores [null]: [None] here. *)
Record Stored : Type := mkStored {
  s_userId : string;
  s_completed : option bool;
  s_deadline : Z
}.

(** The query condition [completed: b]: the stored flag is the boolean
    [b]. *)
Definition flagIs (b : bool) (g : Stored) : bool :=
  match s_completed g with
  | Some c => Bool.eqb c b
  | None => false
  end.

(** [Goal.countDocuments(query)]. *)
Definition countDocuments (query : Stored -> bool) (goals : list Stored)
  : Z :=
  Z.of_nat (length (List.filter query goals)).

Section WithRounding.
Variable fl : Q -> Q.

(** The "Basic statistics" of [GET /api/stats/dashboard]: four separate
    counts and the completion rate. *)
Definition dashboardSummary (now : Z) (uid : string) (goals : list Stored)
  : Summary :=
  let isUser g := bool_decide (s_userId g = uid) in
  let totalGoals := countDocuments isUser goals in
  let completedGoals :=
    countDocuments (fun g => isUser g && flagIs true g) goals in
  let activeGoals :=
    countDocuments (fun g => isUser g && flagIs false g) goals in
  let overdueGoals :=
    countDocuments
      (fun g => isUser g && flagIs false g && (s_deadline g <? now)) goals in
  mkSummary totalGoals completedGoals activeGoals overdueGoals
            (completionRate fl completedGoals totalGoals).

End WithRounding.

(** The goals of [uid] whose flag is [null]. *)
Definition unflagged (uid : string) (goals : list Stored) : list Stored :=
  filter (fun g => s_userId g = uid /\ s_completed g = None) goals.

(** A goal whose flag is a boolean, as it is stored. *)
Definition stored (g : Goal) : Stored :=
  mkStored (userId g) (Some (completed g)) (deadline g).

End Dashboard.

(** ** Goal documents: the save hook, the instance methods and the
    virtuals of the goal schema *)

Module GoalDocument.
Import Number.

Record Subtask : Type := mkSubtask {
  st_id : string;
  st_title : string;
  st_completed : bool;
  st_createdAt : Z
}.

(** The fields of a goal document that the hook, the methods and the
    virtuals read or write.  [progress] is a number, not necessarily an
    integer. *)
Record GoalDoc : Type := mkGoalDoc {
  completed : bool;
  completedAt : option Z;
  progress : Q;
  deadline : Z;
  updatedAt : Z;
  subtasks : list Subtask
}.

Definition set_completed (v : bool) (d : GoalDoc) : GoalDoc :=
  mkGoalDoc v (completedAt d) (progress d) (deadline d) (updatedAt d)
            (subtasks d).
Definition set_completedAt (v : option Z) (d : GoalDoc) : GoalDoc :=
  mkGoalDoc (completed d) v (progress d) (deadline d) (updatedAt d)
            (subtasks d).
Definition set_progress (v : Q) (d : GoalDoc) : GoalDoc :=
  mkGoalDoc (completed d) (completedAt d) v (deadline d) (updatedAt d)
            (subtasks d).
Definition set_updatedAt (v : Z) (d : GoalDoc) : GoalDoc :=
  mkGoalDoc (completed d) (completedAt d) (progress d) (deadline d) v
            (subtasks d).
Definition set_subtasks (v : list Subtask) (d : GoalDoc) : GoalDoc :=
  mkGoalDoc (completed d) (completedAt d) (progress d) (deadline d)
            (updatedAt d) v.

(** The [pre("save")] middleware; [now] is the reading of [Date.now()]. *)
Definition preSave (now : Z) (this : GoalDoc) : GoalDoc :=
  let this := set_updatedAt now this in
  let this :=
    if completed this && negb (bool_decide (is_Some (completedAt this)))
    then set_completedAt (Some now) this else this in
  let this :=
    if negb (completed this) && bool_decide (is_Some (completedAt this))
    then set_completedAt None this else this in
  this.

(** How a call that ends in [this.save()] completes, with the document as
    it is in memory afterwards: saved, rejected by validation (the
    middleware has then not run), or an exception thrown before the
    save. *)
Inductive Outcome : Type :=
| Saved (d : GoalDoc)
| Rejected (d : GoalDoc)
| Thrown (message : string) (d : GoalDoc).

Definition docOf (o : Outcome) : GoalDoc :=
  match o with
  | Saved d => d
  | Rejected d => d
  | Thrown _ d => d
  end.

Section WithSchema.
(** Schema validation of a document at an instant, run by [save] before
    the middleware; and the rounding of the arithmetic.  A call reads the
    clock once: [now] serves its [new Date()] and the [Date.now()] of the
    middleware. *)
Variable validate : Z -> GoalDoc -> bool.
Variable fl : Q -> Q.

Definition save (now : Z) (this : GoalDoc) : Outcome :=
  if validate now this then Saved (preSave now this) else Rejected this.

Definition markComplete (now : Z) (this : GoalDoc) : Outcome :=
  let this := set_completed true this in
  let this := set_completedAt (Some now) this in
  let this := set_progress 100 this in
  save now this.

Definition markIncomplete (now : Z) (this : GoalDoc) : Outcome :=
  let this := set_completed false this in
  let this := set_completedAt None this in
  let this := set_progress 0 this in
  save now this.

(** [Math.min(100, Math.max(0, progress))] and the completion at 100. *)
Definition updateProgress (now : Z) (p : Q) (this : GoalDoc) : Outcome :=
  let this := set_progress (Qmin 100 (Qmax 0 p)) this in
  let this :=
    if Qeq_bool (progress this) 100
    then set_completedAt (Some now) (set_completed true this)
    else this in
  save now this.

Definition flip (st : Subtask) : Subtask :=
  mkSubtask (st_id st) (st_title st) (negb (st_completed st))
            (st_createdAt st).

(** [this.subtasks.id(subtaskId)] finds the first subtask with that id;
    it is flipped in place and [progress] is recomputed from the
    subtasks. *)
Definition toggleSubtask (now : Z) (subtaskId : string) (this : GoalDoc)
  : Outcome :=
  match list_find (fun st => st_id st = subtaskId) (subtasks this) with
  | Some (i, _) =>
      let this := set_subtasks (alter flip i (subtasks this)) this in
      let completedSubtasks :=
        Z.of_nat (length (List.filter st_completed (subtasks this))) in
      let totalSubtasks := Z.of_nat (length (subtasks this)) in
      let this :=
        if totalSubtasks >? 0
        then set_progress
               (inject_Z
                  (Math_round
                     (multiply fl
                        (divide fl (inject_Z completedSubtasks)
                                   (inject_Z totalSubtasks))
                        100)))
               this
        else this in
      save now this
  | None => Thrown "Subtask not found" this
  end.

End WithSchema.

(** The virtual [daysRemaining]:
    [Math.ceil((deadline - today) / (1000 * 60 * 60 * 24))], 0 for a
    completed goal.  The floating-point quotient has the ceiling of the
    exact one as long as the two dates are less than [2^27] days apart,
    which holds of every [Date] seen from a clock of this era. *)
Definition daysRemaining (now : Z) (this : GoalDoc) : Z :=
  if completed this then 0
  else
    let diffTime := deadline this - now in
    - ((- diffTime) / Calendar.msPerDay).

(** The virtual [isOverdue]. *)
Definition isOverdue (now : Z) (this : GoalDoc) : bool :=
  if completed this then false else now >? deadline this.

(** [completedAt] is set exactly when the goal is completed. *)
Definition consistent (d : GoalDoc) : Prop :=
  completed d = true <-> is_Some (completedAt d).

(** An open goal with three subtasks, one of them done. *)
Definition sampleDoc : GoalDoc :=
  mkGoalDoc false None 0 (Calendar.day 20) (Calendar.day 1)
    [ mkSubtask "s1" "read" false 0;
      mkSubtask "s2" "write" true 0;
      mkSubtask "s3" "test" false 0 ].

End GoalDocument.

(** ** Authentication middleware *)

Module Auth.

(** [req.user]: the uid and, when the token carries one, the email. *)
Record User : Type := mkUser {
  uid : string;
  email : option string
}.

(** What a middleware does with a request: hand it on with [req.user]
    set (to a user or to [null]), or answer it. *)
Inductive Result : Type :=
| Next (user : option User)
| Respond (status : Z) (error : string).

(** The mock user of development mode. *)
Definition devUser : User := mkUser "dev-user-id" (Some "dev@example.com").

(** [s.substring(7)]. *)
Definition substring7 (s : string) : string :=
  String.substring 7 (String.length s - 7) s.

(** [s.includes(needle)]. *)
Fixpoint includes (needle s : string) : bool :=
  String.prefix needle s ||
  match s with
  | EmptyString => false
  | String _ rest => includes needle rest
  end.

(** A header value is truthy when it is present and not empty. *)
Definition truthy (s : option string) : bool :=
  match s with
  | Some s => negb (String.eqb s "")
  | None => false
  end.

Section WithFirebase.
(** Whether the Firebase Admin SDK was initialised, and
    [admin.auth().verifyIdToken]: the decoded user, or [None] when it
    throws. *)
Variable firebaseAdmin : bool.
Variable verifyIdToken : string -> option User.

Definition authenticateUser (authorization : option string) : Result :=
  match authorization with
  | Some authHeader =>
      if negb (truthy (Some authHeader))
         || negb (String.prefix "Bearer " authHeader)
      then Respond 401 "No token provided"
      else
        let token := substring7 authHeader in
        if firebaseAdmin then
          match verifyIdToken token with
          | Some decodedToken => Next (Some decodedToken)
          | None => Respond 401 "Invalid token"
          end
        else if truthy (Some token) && (20 <? String.length token)%nat
        then Next (Some devUser)
        else Respond 401 "Invalid token format"
  | None => Respond 401 "No token provided"
  end.

Definition optionalAuth (authorization : option string) : Result :=
  match authorization with
  | Some authHeader =>
      if truthy (Some authHeader) && String.prefix "Bearer " authHeader
      then
        let token := substring7 authHeader in
        if firebaseAdmin then
          match verifyIdToken token with
          | Some decodedToken => Next (Some decodedToken)
          | None => Next None
          end
        else Next (Some devUser)
      else Next None
  | None => Next None
  end.

End WithFirebase.

(** [requireAdmin], on the [req.user] left by the earlier middleware. *)
Definition requireAdmin (user : option User) : Result :=
  match user with
  | None => Respond 401 "Authentication required"
  | Some u =>
      if truthy (email u) && includes "admin" (default "" (email u))
      then Next (Some u)
      else Respond 403 "Admin access required"
  end.

End Auth.

(** ** The server: CORS origin check and global error handler *)

Module Server.

(** [s.split(',')]. *)
Fixpoint split_comma (s : string) : list string :=
  match s with
  | EmptyString => [EmptyString]
  | String c rest =>
      if String.eqb (String c EmptyString) "," then
        EmptyString :: split_comma rest
      else
        match split_comma rest with
        | piece :: pieces => String c piece :: pieces
        | [] => [String c EmptyString]
        end
  end.

(** [process.env.ALLOWED_ORIGINS?.split(',') || ['http://localhost:5500']]. *)
Definition allowedOrigins (env : option string) : list string :=
  match env with
  | Some value => split_comma value
  | None => ["http://localhost:5500"]
  end.

(** An error object as the handler reads it: [name], [message], [status]
    and the messages of [errors]. *)
Record Err : Type := mkErr {
  name : string;
  message : string;
  status : option Z;
  errors : list string
}.

(** [new Error('Not allowed by CORS')]. *)
Definition corsError : Err := mkErr "Error" "Not allowed by CORS" None [].

(** The [origin] function of the CORS options: [callback(null, true)] or
    [callback(error)]. *)
Definition corsOrigin (env : option string) (origin : option string)
  : option Err :=
  if negb (Auth.truthy origin) then None
  else if bool_decide (default "" origin ∈ allowedOrigins env) then None
  else Some corsError.

(** [pieces.join(',')] and strings without a comma. *)
Fixpoint join_comma (pieces : list string) : string :=
  match pieces with
  | [] => EmptyString
  | [piece] => piece
  | piece :: rest => String.append piece (String.append "," (join_comma rest))
  end.

Definition no_comma (s : string) : Prop := Auth.includes "," s = false.

Record ErrorResponse : Type := mkErrorResponse {
  er_status : Z;
  er_error : string;
  er_details : list string
}.

(** The global error handler. *)
Definition errorHandler (err : Err) : ErrorResponse :=
  if String.eqb (name err) "ValidationError"
  then mkErrorResponse 400 "Validation Error" (errors err)
  else if String.eqb (name err) "CastError"
  then mkErrorResponse 400 "Invalid ID format" []
  else if String.eqb (name err) "JsonWebTokenError"
  then mkErrorResponse 401 "Invalid token" []
  else if String.eqb (name err) "TokenExpiredError"
  then mkErrorResponse 401 "Token expired" []
  else if String.eqb (message err) "Not allowed by CORS"
  then mkErrorResponse 403 "CORS policy violation" []
  else
    mkErrorResponse
      (match status err with
       | Some st => if st =? 0 then 500 else st
       | None => 500
       end)
      (if String.eqb (message err) "" then "Internal server error"
       else message err)
      [].

End Server.

(** ** Goal routes: reading and deleting one goal *)

Module GoalRoutes.
Import Stats.

Inductive Response : Type :=
| GoalJson (status : Z) (goal : Goal)
| DeletedJson (status : Z) (message : string) (goal : Goal)
| ErrorJson (status : Z) (error : string).

Definition statusOf (r : Response) : Z :=
  match r with
  | GoalJson st _ => st
  | DeletedJson st _ _ => st
  | ErrorJson st _ => st
  end.

Section WithStore.
(** Whether [Goal.findById] can cast the id; when it cannot it throws and
    the handler's [catch] answers 500. *)
Variable castable : string -> bool.

(** [GET /api/goals/:id] for the authenticated user [user]. *)
Definition getGoal (user : string) (ident : string)
  (store : gmap string Goal) : Response :=
  if castable ident then
    match store !! ident with
    | None => ErrorJson 404 "Goal not found"
    | Some goal =>
        if bool_decide (userId goal <> user)
        then ErrorJson 403 "Access denied"
        else GoalJson 200 goal
    end
  else ErrorJson 500 "Failed to fetch goal".

(** [DELETE /api/goals/:id]: the response and the collection afterwards. *)
Definition deleteGoal (user : string) (ident : string)
  (store : gmap string Goal) : Response * gmap string Goal :=
  if castable ident then
    match store !! ident with
    | None => (ErrorJson 404 "Goal not found", store)
    | Some goal =>
        if bool_decide (userId goal <> user)
        then (ErrorJson 403 "Access denied", store)
        else (DeletedJson 200 "Goal deleted successfully" goal,
              delete ident store)
    end
  else (ErrorJson 500 "Failed to delete goal", store).

End WithStore.
End GoalRoutes.

(** ** Goal routes: updating one goal *)

Module GoalUpdate.
Import GoalDocument.

(** A value of a request body as [express.json()] hands it to the
    handler: [JSON.parse] gives [null], a boolean, a number (finite, or
    infinite when the literal overflows), a string, an array or an
    object. *)
#[local] Unset Elimination Schemes.
Inductive Json : Type :=
| JNull
| JBool (b : bool)
| JNumber (x : Q)
| JInfinity (negative : bool)
| JString (s : string)
| JArray (items : list Json)
| JObject (members : list (string * Json)).
#[local] Set Elimination Schemes.

(** What [if (v)] makes of such a value. *)
Definition truthy (v : Json) : bool :=
  match v with
  | JNull => false
  | JBool b => b
  | JNumber x => negb (Qeq_bool x 0)
  | JInfinity _ => true
  | JString s => negb (String.eqb s "")
  | JArray _ => true
  | JObject _ => true
  end.

(** The outcome of casting a value to the schema type Boolean: a boolean
    or [null], or a [CastError]. *)
Inductive CastResult : Type :=
| CastTo (flag : option bool)
| CastError.

(** A stored goal, with the fields a [PUT] may write and its owner.  The
    completion flag is [None] when the document holds [null]. *)
Record StoredGoal : Type := mkStoredGoal {
  g_userId : string;
  g_title : string;
  g_description : string;
  g_category : string;
  g_priority : string;
  g_deadline : Z;
  g_reminder : string;
  g_completed : option bool;
  g_completedAt : option Z;
  g_progress : Q;
  g_tags : list string;
  g_notes : string;
  g_subtasks : list Subtask
}.

(** The allowed fields of a request body, each absent ([undefined]) or
    present; and the [updates] object, which may also carry [completedAt]
    (a date or [null]).  [completed] is kept as the raw value, which is what
    the handler tests; the other fields, which the handler only copies, are
    present with a value of their schema type. *)
Record Updates : Type := mkUpdates {
  u_title : option string;
  u_description : option string;
  u_category : option string;
  u_priority : option string;
  u_deadline : option Z;
  u_reminder : option string;
  u_completed : option Json;
  u_progress : option Q;
  u_tags : option (list string);
  u_notes : option string;
  u_subtasks : option (list Subtask);
  u_completedAt : option (option Z)
}.

(** The copy of the allowed fields followed by "Handle completion status
    change"; [body] arrives without [completedAt], which is not an allowed
    field. *)
Definition buildUpdates (now : Z) (body : Updates) : Updates :=
  let updates :=
    mkUpdates (u_title body) (u_description body) (u_category body)
              (u_priority body) (u_deadline body) (u_reminder body)
              (u_completed body) (u_progress body) (u_tags body)
              (u_notes body) (u_subtasks body) None in
  match u_completed updates with
  | Some v =>
      if truthy v then
        mkUpdates (u_title updates) (u_description updates)
                  (u_category updates) (u_priority updates)
                  (u_deadline updates) (u_reminder updates)
                  (u_completed updates) (Some 100%Q) (u_tags updates)
                  (u_notes updates) (u_subtasks updates) (Some (Some now))
      else
        mkUpdates (u_title updates) (u_description updates)
                  (u_category updates) (u_priority updates)
                  (u_deadline updates) (u_reminder updates)
                  (u_completed updates) (u_progress updates) (u_tags updates)
                  (u_notes updates) (u_subtasks updates) (Some None)
  | None => updates
  end.

(** What the cast update does to the stored flag. *)
Inductive FlagUpdate : Type :=
| Untouched
| SetFlag (flag : option bool).

Definition applyFlag (f : FlagUpdate) (old : option bool) : option bool :=
  match f with
  | Untouched => old
  | SetFlag flag => flag
  end.

(** [{ $set: updates }], with [completed] as the cast left it. *)
Definition applySet (u : Updates) (f : FlagUpdate) (g : StoredGoal)
  : StoredGoal :=
  mkStoredGoal
    (g_userId g)
    (default (g_title g) (u_title u))
    (default (g_description g) (u_description u))
    (default (g_category g) (u_category u))
    (default (g_priority g) (u_priority u))
    (default (g_deadline g) (u_deadline u))
    (default (g_reminder g) (u_reminder u))
    (applyFlag f (g_completed g))
    (default (g_completedAt g) (u_completedAt u))
    (default (g_progress g) (u_progress u))
    (default (g_tags g) (u_tags u))
    (default (g_notes g) (u_notes u))
    (default (g_subtasks g) (u_subtasks u)).

Inductive PutResponse : Type :=
| UpdatedJson (goal : StoredGoal)
| PutError (status : Z) (error : string).

Section WithStore.
(** Whether [findById] can cast the id, and the schema validators that
    [runValidators] runs on the update at an instant. *)
Variable castable : string -> bool.
Variable validators : Z -> Updates -> bool.
(** What the cast of the update makes of an array or an object given for
    [completed]. *)
Variable castComposite : Json -> CastResult.

(** Mongoose's cast to Boolean: [true], ["true"], [1], ["1"] and ["yes"]
    become [true]; [false], ["false"], [0], ["0"] and ["no"] become [false];
    [null] stays [null]; any other value is a [CastError]. *)
Definition castBoolean (v : Json) : CastResult :=
  match v with
  | JNull => CastTo None
  | JBool b => CastTo (Some b)
  | JNumber x =>
      if Qeq_bool x 1 then CastTo (Some true)
      else if Qeq_bool x 0 then CastTo (Some false)
      else CastError
  | JInfinity _ => CastError
  | JString s =>
      if existsb (String.eqb s) ["true"; "1"; "yes"] then CastTo (Some true)
      else if existsb (String.eqb s) ["false"; "0"; "no"]
           then CastTo (Some false)
      else CastError
  | JArray _ => castComposite v
  | JObject _ => castComposite v
  end.

(** The cast of [updates.completed] inside [findByIdAndUpdate];
    [None] when it throws. *)
Definition castCompleted (v : option Json) : option FlagUpdate :=
  match v with
  | None => Some Untouched
  | Some v =>
      match castBoolean v with
      | CastTo flag => Some (SetFlag flag)
      | CastError => None
      end
  end.

(** [PUT /api/goals/:id] for the authenticated user [user]: the response
    and the collection afterwards.  A [CastError] is not a
    [ValidationError], so the [catch] answers it with 500. *)
Definition putGoal (now : Z) (user : string) (ident : string)
  (body : Updates) (store : gmap string StoredGoal)
  : PutResponse * gmap string StoredGoal :=
  if castable ident then
    match store !! ident with
    | None => (PutError 404 "Goal not found", store)
    | Some goal =>
        if bool_decide (g_userId goal <> user)
        then (PutError 403 "Access denied", store)
        else
          let updates := buildUpdates now body in
          match castCompleted (u_completed updates) with
          | None => (PutError 500 "Failed to update goal", store)
          | Some flag =>
              if validators now updates
              then
                let updatedGoal := applySet updates flag goal in
                (UpdatedJson updatedGoal, <[ident := updatedGoal]> store)
              else (PutError 400 "Validation failed", store)
          end
    end
  else (PutError 500 "Failed to update goal", store).

End WithStore.

(** [completedAt] is set exactly when the stored goal is completed. *)
Definition settledGoal (g : StoredGoal) : Prop :=
  g_completed g = Some true <-> is_Some (g_completedAt g).

End GoalUpdate.

(** ** Auxiliary notions used in the statements *)

Module Notions.
Import Stats StatsRoutes.

(** A rational that a double holds exactly: an integer below [2^53] in
    magnitude, divided by a power of two. *)
Definition representable (q : Q) : Prop :=
  exists m k, Z.abs m < 2 ^ 53 /\ 0 <= k <= 1022 /\
              (q == inject_Z m / inject_Z (2 ^ k))%Q.

(** A bucket with at least one goal and no more completed goals than
    goals. *)
Definition sound_bucket {K : Type} (d : K * Counts) : Prop :=
  1 <= count d.2 /\ 0 <= completedCount d.2 <= count d.2.

(** The totals over the documents of [getStatsByCategory]. *)
Definition sumTotal (l : list CategoryStats) : Z :=
  foldr (fun e acc => cs_total e + acc) 0 l.
Definition sumCompleted (l : list CategoryStats) : Z :=
  foldr (fun e acc => cs_completed e + acc) 0 l.

(** Whether the achievement called [ident] is unlocked in [l]. *)
Definition isUnlocked (l : list Achievement) (ident : string) : bool :=
  existsb (fun a => String.eqb (id a) ident && unlocked a) l.

End Notions.

(** * Properties *)

(** ** Calendar *)

Module CalendarFacts.
Import Calendar.

Lemma msPerDay_pos : 0 < msPerDay.
Proof. reflexivity. Qed.

Lemma setHours0_local_midnight tz t : (setHours0 tz t + tz) mod msPerDay = 0.
Proof.
  unfold setHours0.
  replace (t - (t + tz) mod msPerDay + tz)
    with ((t + tz) - (t + tz) mod msPerDay) by lia.
  rewrite Zminus_mod, Z.mod_mod by (pose proof msPerDay_pos; lia).
  rewrite Z.sub_diag. reflexivity.
Qed.

Lemma setHours0_idem tz t : setHours0 tz (setHours0 tz t) = setHours0 tz t.
Proof.
  unfold setHours0 at 1. rewrite setHours0_local_midnight. lia.
Qed.

Lemma setHours0_add_days tz t k :
  setHours0 tz (t + k * msPerDay) = setHours0 tz t + k * msPerDay.
Proof.
  unfold setHours0.
  replace (t + k * msPerDay + tz) with (t + tz + k * msPerDay) by lia.
  rewrite Z.mod_add by (pose proof msPerDay_pos; lia). lia.
Qed.

Lemma setHours0_mono tz t u : t <= u -> setHours0 tz t <= setHours0 tz u.
Proof.
  intros Htu. unfold setHours0.
  pose proof msPerDay_pos as Hpos.
  rewrite !Zmod_eq_full by lia.
  assert ((t + tz) / msPerDay <= (u + tz) / msPerDay)
    by (apply Z.div_le_mono; lia).
  nia.
Qed.

End CalendarFacts.

(** ** Streak updates *)

Module StreakFacts.
Import Calendar CalendarFacts Streak.

Section WithTimeZone.
Variable tz : Z.

Local Abbreviation today := (setHours0 tz).

Lemma daysDiff_same_day now last :
  today now = today last -> daysDiff tz now last = 0.
Proof.
  intros Heq. unfold daysDiff. rewrite Heq, Z.sub_diag. reflexivity.
Qed.

Lemma daysDiff_truncated now last :
  daysDiff tz now (today last) = daysDiff tz now last.
Proof. unfold daysDiff. now rewrite setHours0_idem. Qed.

Lemma daysDiff_add_days last k :
  daysDiff tz (last + k * msPerDay) last = k.
Proof.
  unfold daysDiff. rewrite setHours0_add_days.
  replace (today last + k * msPerDay - today last) with (k * msPerDay) by lia.
  apply Z.div_mul. pose proof msPerDay_pos. lia.
Qed.

Lemma daysDiff_earlier now last :
  today now < last -> daysDiff tz now last <= 0.
Proof.
  intros Hlt. unfold daysDiff.
  assert (today now <= today last) as Hle.
  { rewrite <- (setHours0_idem tz now). apply setHours0_mono. lia. }
  assert ((today now - today last) / msPerDay <= 0 / msPerDay) as Hdiv
    by (apply Z.div_le_mono; [apply msPerDay_pos | lia]).
  exact Hdiv.
Qed.

(** The three branches of the update, by the value of [daysDiff]. *)

Lemma streakAfter_first now s :
  lastActiveDate s = None ->
  streakAfter tz now s = mkStreak 1 1 (Some (today now)).
Proof. intros Hnone. unfold streakAfter. rewrite Hnone. reflexivity. Qed.

Lemma streakAfter_next_day now last s :
  lastActiveDate s = Some last ->
  daysDiff tz now last = 1 ->
  streakAfter tz now s =
  mkStreak (current s + 1) (Z.max (longest s) (current s + 1))
           (Some (today now)).
Proof.
  intros Hlast Hdiff. unfold streakAfter, daysDiff in *.
  rewrite Hlast. cbn zeta. rewrite Hdiff.
  change (1 =? 1) with true. cbv iota.
  unfold set_longest, set_current. cbn [current longest lastActiveDate].
  destruct (Z.gtb_spec (current s + 1) (longest s)) as [Hgt | Hle];
    unfold set_lastActiveDate; cbn [current longest lastActiveDate].
  - rewrite Z.max_r by lia. reflexivity.
  - rewrite Z.max_l by lia. reflexivity.
Qed.

Lemma streakAfter_gap now last s :
  lastActiveDate s = Some last ->
  1 < daysDiff tz now last ->
  streakAfter tz now s = mkStreak 1 (longest s) (Some (today now)).
Proof.
  intros Hlast Hdiff. unfold streakAfter, daysDiff in *.
  rewrite Hlast. cbn zeta.
  destruct (Z.eqb_spec ((today now - today last) / msPerDay) 1); [lia |].
  destruct (Z.gtb_spec ((today now - today last) / msPerDay) 1); [| lia].
  reflexivity.
Qed.

Lemma streakAfter_not_later now last s :
  lastActiveDate s = Some last ->
  daysDiff tz now last <= 0 ->
  streakAfter tz now s = mkStreak (current s) (longest s) (Some (today now)).
Proof.
  intros Hlast Hdiff. unfold streakAfter, daysDiff in *.
  rewrite Hlast. cbn zeta.
  destruct (Z.eqb_spec ((today now - today last) / msPerDay) 1); [lia |].
  destruct (Z.gtb_spec ((today now - today last) / msPerDay) 1); [lia |].
  reflexivity.
Qed.

Lemma streakAfter_lastActiveDate now s :
  lastActiveDate (streakAfter tz now s) = Some (today now).
Proof. reflexivity. Qed.

(** Case analysis on a stored date: one of the three branches applies. *)
Lemma streakAfter_cases now last s :
  lastActiveDate s = Some last ->
  streakAfter tz now s =
    mkStreak (current s + 1) (Z.max (longest s) (current s + 1))
             (Some (today now)) \/
  streakAfter tz now s = mkStreak 1 (longest s) (Some (today now)) \/
  streakAfter tz now s = mkStreak (current s) (longest s) (Some (today now)).
Proof.
  intros Hlast.
  destruct (Z.lt_total (daysDiff tz now last) 1) as [Hlt | [Heq | Hgt]].
  - right; right. apply (streakAfter_not_later now last); [done | lia].
  - left. now apply (streakAfter_next_day now last).
  - right; left. now apply (streakAfter_gap now last).
Qed.

Lemma streakAfter_settled now s : settled (streakAfter tz now s).
Proof. left. rewrite streakAfter_lastActiveDate. eauto. Qed.

Lemma streakAfter_longest_le now s :
  settled s -> longest s <= longest (streakAfter tz now s).
Proof.
  intros Hs. destruct (lastActiveDate s) as [last |] eqn:Hlast.
  - destruct (streakAfter_cases now last s Hlast) as [-> | [-> | ->]];
      cbn; lia.
  - rewrite (streakAfter_first now s Hlast). cbn.
    destruct Hs as [[d Hd] | Hle]; [congruence | lia].
Qed.

Lemma trace_longest_le nows : forall s,
  settled s ->
  Forall (fun s' => longest s <= longest s') (trace tz nows s).
Proof.
  induction nows as [| now rest IH]; intros s Hs; cbn.
  - constructor; [lia | constructor].
  - constructor; [lia |].
    pose proof (streakAfter_longest_le now s Hs) as Hstep.
    eapply Forall_impl; [apply IH, streakAfter_settled |].
    intros s' Hs'. cbn beta in Hs'. lia.
Qed.

Lemma streak_inv_initial : streak_inv initial.
Proof. split; cbn; [lia | intros [d Hd]; discriminate]. Qed.

Lemma streak_inv_step now s : streak_inv s -> streak_inv (streakAfter tz now s).
Proof.
  intros [Hle Hone]. destruct (lastActiveDate s) as [last |] eqn:Hlast.
  - assert (1 <= longest s) by (apply Hone; eauto).
    destruct (streakAfter_cases now last s Hlast) as [-> | [-> | ->]];
      split; cbn; intros; lia.
  - rewrite (streakAfter_first now s Hlast). split; cbn; intros; lia.
Qed.

(** C1 (as the code behaves): when the update runs on a day strictly
    earlier than the stored [lastActiveDate], [updateStreak] raises no
    error; it returns with [current] and [longest] as they were and with
    [lastActiveDate] moved back to today. *)
Theorem updateStreak_out_of_order s last now
  (Hlast : lastActiveDate s = Some last)
  (Hearlier : today now < last) :
  updateStreak tz now s =
  Returned (mkStreak (current s) (longest s) (Some (today now))).
Proof.
  unfold updateStreak. f_equal.
  apply (streakAfter_not_later now last); [exact Hlast |].
  now apply daysDiff_earlier.
Qed.

(** C2: in every state reachable from the schema defaults
    (current = 0, longest = 0, no lastActiveDate) by streak updates,
    [longest >= current]. *)
Theorem reachable_longest_ge_current s
  (Hreach : reachable tz s) :
  longest s >= current s.
Proof.
  assert (streak_inv s) as [Hle _]; [| lia].
  induction Hreach as [| now s Hreach IH].
  - apply streak_inv_initial.
  - cbn. now apply streak_inv_step.
Qed.

(** C3: a second update on the same day keeps [current] and [longest] of
    the first and only re-stamps [lastActiveDate]; more generally, an
    update with [daysDiff = 0] leaves both counters unchanged. *)
Theorem updateStreak_same_day s now1 now2
  (Hsame : today now1 = today now2) :
  let once := stateOf (updateStreak tz now1 s) in
  let twice := stateOf (updateStreak tz now2 once) in
  (current twice = current once /\
   longest twice = longest once /\
   lastActiveDate twice = Some (today now2)) /\
  (forall s0 last now,
      lastActiveDate s0 = Some last ->
      daysDiff tz now last = 0 ->
      stateOf (updateStreak tz now s0) =
      mkStreak (current s0) (longest s0) (Some (today now))).
Proof.
  cbn zeta. split.
  - cbn [stateOf updateStreak].
    rewrite (streakAfter_not_later now2 (today now1) (streakAfter tz now1 s)).
    + cbn. auto.
    + apply streakAfter_lastActiveDate.
    + rewrite daysDiff_truncated, daysDiff_same_day by congruence. lia.
  - intros s0 last now Hlast Hdiff. cbn.
    apply (streakAfter_not_later now last); [exact Hlast | lia].
Qed.

(** C4 (as the code behaves): from a state that has a stored
    [lastActiveDate], or whose [longest] is at most 1 (every state
    reachable from the schema defaults is one or the other), [longest]
    never decreases along a sequence of updates on non-decreasing days. *)
Theorem longest_non_decreasing s nows
  (Hstart : is_Some (lastActiveDate s) \/ longest s <= 1)
  (Hdays : Sorted Z.le (map today nows)) :
  StronglySorted Z.le (map longest (trace tz nows s)).
Proof.
  clear Hdays. revert s Hstart.
  induction nows as [| now rest IH]; intros s Hs; cbn.
  - repeat constructor.
  - constructor.
    + apply IH, streakAfter_settled.
    + apply Forall_map.
      pose proof (streakAfter_longest_le now s Hs) as Hstep.
      eapply Forall_impl;
        [apply trace_longest_le, streakAfter_settled |].
      intros s' Hs'. cbn beta in Hs'. lia.
Qed.

(** With a fixed offset: an update whose [daysDiff] exceeds 1 sets
    [current] to 1, keeps [longest] and stamps today; from current = 5,
    longest = 5, lastActiveDate = d an update five times 24 hours after d
    gives current = 1 and longest = 5. *)
Lemma updateStreak_break_and_restart s last now
  (Hlast : lastActiveDate s = Some last)
  (Hgap : daysDiff tz now last > 1) :
  updateStreak tz now s =
    Returned (mkStreak 1 (longest s) (Some (today now))) /\
  (forall d,
      updateStreak tz (d + 5 * msPerDay) (mkStreak 5 5 (Some d)) =
      Returned (mkStreak 1 5 (Some (today (d + 5 * msPerDay))))).
Proof.
  split.
  - unfold updateStreak. f_equal.
    apply (streakAfter_gap now last); [exact Hlast | lia].
  - intros d. unfold updateStreak. f_equal.
    apply (streakAfter_gap _ d); [reflexivity |].
    rewrite daysDiff_add_days. lia.
Qed.

(** With a fixed offset: from a state with no [lastActiveDate], three
    updates whose [daysDiff] to the one before is 1 leave current = 3 and
    longest = 3; an update with [daysDiff = 1] adds one to [current] and
    raises [longest] to the new [current] when that is larger. *)
Lemma updateStreak_three_consecutive_days s now1 now2 now3
  (Hfresh : lastActiveDate s = None)
  (Hday2 : daysDiff tz now2 now1 = 1)
  (Hday3 : daysDiff tz now3 now2 = 1) :
  (current (recordAll tz [now1; now2; now3] s) = 3 /\
   longest (recordAll tz [now1; now2; now3] s) = 3) /\
  (forall s0 last now,
      lastActiveDate s0 = Some last ->
      daysDiff tz now last = 1 ->
      stateOf (updateStreak tz now s0) =
      mkStreak (current s0 + 1)
               (if current s0 + 1 >? longest s0
                then current s0 + 1 else longest s0)
               (Some (today now))).
Proof.
  split.
  - unfold recordAll. cbn [fold_left stateOf updateStreak].
    rewrite (streakAfter_first now1 s Hfresh).
    rewrite (streakAfter_next_day now2 (today now1))
      by (reflexivity || now rewrite daysDiff_truncated).
    rewrite (streakAfter_next_day now3 (today now2))
      by (reflexivity || now rewrite daysDiff_truncated).
    cbn. auto.
  - intros s0 last now Hlast Hdiff. cbn.
    rewrite (streakAfter_next_day now last s0 Hlast Hdiff). f_equal.
    destruct (Z.gtb_spec (current s0 + 1) (longest s0)); lia.
Qed.

End WithTimeZone.

(** Concrete instances, in UTC ([tz = 0]) with day 10 as the stored day. *)

(** C1, counterexample: with lastActiveDate on day 10 and the clock on
    day 9, [updateStreak] does not raise [OutOfOrderActivity], and the
    state is not left unchanged: [lastActiveDate] becomes day 9. *)
Lemma updateStreak_out_of_order_not_rejected :
  let s := mkStreak 3 5 (Some (day 10)) in
  lastActiveDate s = Some (day 10) /\
  setHours0 0 (day 9) < day 10 /\
  updateStreak 0 (day 9) s <> Threw OutOfOrderActivity s /\
  stateOf (updateStreak 0 (day 9) s) = mkStreak 3 5 (Some (day 9)) /\
  stateOf (updateStreak 0 (day 9) s) <> s.
Proof.
  cbn zeta. repeat split; try reflexivity; discriminate.
Qed.

Lemma updateStreak_out_of_order_witness :
  updateStreak 0 (day 9) (mkStreak 3 5 (Some (day 10))) =
  Returned (mkStreak 3 5 (Some (setHours0 0 (day 9)))).
Proof.
  apply (updateStreak_out_of_order 0 (mkStreak 3 5 (Some (day 10))) (day 10));
    reflexivity.
Defined.

Lemma reachable_longest_ge_current_witness :
  longest (stateOf (updateStreak 0 (day 10) initial)) >=
  current (stateOf (updateStreak 0 (day 10) initial)).
Proof.
  apply (reachable_longest_ge_current 0).
  apply reachable_update, reachable_initial.
Defined.

Lemma updateStreak_same_day_witness :
  current (stateOf (updateStreak 0 (day 10 + 7)
                      (stateOf (updateStreak 0 (day 10) initial)))) =
  current (stateOf (updateStreak 0 (day 10) initial)).
Proof.
  apply (updateStreak_same_day 0 initial (day 10) (day 10 + 7)).
  reflexivity.
Defined.

(** C4, counterexample: a document with longest = 5 and no
    [lastActiveDate]; the first update lowers [longest] to 1. *)
Lemma longest_decreases_without_lastActiveDate :
  let s := mkStreak 0 5 None in
  Sorted Z.le (map (setHours0 0) [day 10]) /\
  map longest (trace 0 [day 10] s) = [5; 1] /\
  ~ StronglySorted Z.le (map longest (trace 0 [day 10] s)).
Proof.
  cbn zeta. split; [repeat constructor | split; [reflexivity |]].
  intros Hsorted. cbn in Hsorted.
  apply StronglySorted_inv in Hsorted as [_ Hall].
  apply Forall_inv in Hall. lia.
Qed.

Lemma longest_non_decreasing_witness :
  StronglySorted Z.le
    (map longest (trace 0 [day 10; day 11; day 13] (mkStreak 2 4 (Some (day 9))))).
Proof.
  apply (longest_non_decreasing 0).
  - left. cbn. eauto.
  - cbn. repeat constructor; vm_compute; discriminate.
Defined.

End StreakFacts.

(** ** Rounding *)

Module NumberFacts.
Import Number.

Lemma Qdiv_one x : (x / 1 == x)%Q.
Proof. field. Qed.

Lemma exact_arithmetic_faithful : faithful_rounding (fun x => x).
Proof. split; intros; [assumption | reflexivity]. Qed.

Lemma Math_round_half_up x : round_half_up x (Math_round x).
Proof.
  unfold round_half_up, Math_round.
  pose proof (Qfloor_le (x + (1 # 2))) as Hlo.
  pose proof (Qlt_floor (x + (1 # 2))) as Hhi.
  rewrite inject_Z_plus in Hhi. change (inject_Z 1) with 1%Q in Hhi.
  split; lra.
Qed.

Lemma round_half_up_unique x n m :
  round_half_up x n -> round_half_up x m -> n = m.
Proof.
  intros [Hn1 Hn2] [Hm1 Hm2].
  assert (inject_Z n < inject_Z m + 1)%Q as H1 by lra.
  assert (inject_Z m < inject_Z n + 1)%Q as H2 by lra.
  change 1%Q with (inject_Z 1) in H1, H2.
  rewrite <- inject_Z_plus, <- Zlt_Qlt in H1, H2. lia.
Qed.

Lemma mongo_round_half_even x : round_half_even x (mongo_round x).
Proof.
  unfold round_half_even, mongo_round.
  pose proof (Qfloor_le x) as Hlo.
  pose proof (Qlt_floor x) as Hhi.
  rewrite inject_Z_plus in Hhi. change (inject_Z 1) with 1%Q in Hhi.
  destruct (Qcompare_spec (x - inject_Z (Qfloor x)) (1 # 2)) as [Heq | Hlt | Hgt].
  - destruct (Z.even (Qfloor x)) eqn:Heven.
    + split; [split; lra | auto].
    + rewrite inject_Z_plus. change (inject_Z 1) with 1%Q.
      split; [split; lra |]. intros _.
      rewrite Z.even_add, Heven. reflexivity.
  - split; [split; lra |]. intros [H | H]; lra.
  - rewrite inject_Z_plus. change (inject_Z 1) with 1%Q.
    split; [split; lra |]. intros [H | H]; lra.
Qed.

Lemma Math_round_Z n : Math_round (inject_Z n) = n.
Proof.
  apply (round_half_up_unique (inject_Z n)); [apply Math_round_half_up |].
  split; lra.
Qed.

Lemma Math_round_mono x y : (x <= y)%Q -> Math_round x <= Math_round y.
Proof. intros Hxy. apply Qfloor_resp_le. lra. Qed.

Lemma mongo_round_Z n : mongo_round (inject_Z n) = n.
Proof.
  unfold mongo_round. rewrite Qfloor_Z.
  destruct (Qcompare_spec (inject_Z n - inject_Z n) (1 # 2)); [lra | reflexivity | lra].
Qed.

Lemma mongo_round_comp x y : (x == y)%Q -> mongo_round x = mongo_round y.
Proof.
  intros Hxy. unfold mongo_round.
  assert (Qfloor x = Qfloor y) as -> by now apply Qfloor_comp.
  assert ((x - inject_Z (Qfloor y) ?= 1 # 2) = (y - inject_Z (Qfloor y) ?= 1 # 2))%Q
    as -> by (apply Qcompare_comp; [rewrite Hxy |]; reflexivity).
  reflexivity.
Qed.

Lemma mongo_round_bounds x lo hi :
  (inject_Z lo <= x <= inject_Z hi)%Q -> lo <= mongo_round x <= hi.
Proof.
  intros [Hlo Hhi].
  destruct (mongo_round_half_even x) as [[H1 H2] Htie].
  assert (inject_Z lo < inject_Z (mongo_round x) + 1)%Q as Ha by lra.
  assert (inject_Z (mongo_round x) < inject_Z hi + 1)%Q as Hb by lra.
  change 1%Q with (inject_Z 1) in Ha, Hb.
  rewrite <- inject_Z_plus, <- Zlt_Qlt in Ha, Hb. lia.
Qed.

Lemma Math_round_bounds x lo hi :
  (inject_Z lo <= x <= inject_Z hi)%Q -> lo <= Math_round x <= hi.
Proof.
  intros [Hlo Hhi].
  rewrite <- (Math_round_Z lo), <- (Math_round_Z hi).
  split; now apply Math_round_mono.
Qed.

Section Rounding.
Variable fl : Q -> Q.
Hypothesis Hfl : faithful_rounding fl.

Lemma fl_Z n : Z.abs n < 2 ^ 53 -> (fl (inject_Z n) == inject_Z n)%Q.
Proof.
  intros Hn. pose proof (fl_exact fl Hfl n 0 Hn) as H.
  assert (fl (inject_Z n) == fl (inject_Z n / inject_Z (2 ^ 0)))%Q as Heq.
  { apply Qle_antisym; apply (fl_monotone fl Hfl);
      change (inject_Z (2 ^ 0)) with 1%Q; rewrite Qdiv_one; lra. }
  rewrite Heq, H by lia. change (inject_Z (2 ^ 0)) with 1%Q. apply Qdiv_one.
Qed.

Lemma fl_bounds lo hi x :
  Z.abs lo < 2 ^ 53 -> Z.abs hi < 2 ^ 53 ->
  (inject_Z lo <= x <= inject_Z hi)%Q ->
  (inject_Z lo <= fl x <= inject_Z hi)%Q.
Proof.
  intros Hlo Hhi [H1 H2].
  pose proof (fl_Z lo Hlo) as Elo. pose proof (fl_Z hi Hhi) as Ehi.
  pose proof (fl_monotone fl Hfl _ _ H1). pose proof (fl_monotone fl Hfl _ _ H2).
  split; lra.
Qed.

Lemma fl_proper x y : (x == y)%Q -> (fl x == fl y)%Q.
Proof.
  intros Hxy. apply Qle_antisym; apply (fl_monotone fl Hfl); lra.
Qed.

(** A result that is representable is not changed by the rounding. *)
Lemma fl_representable x m k :
  Z.abs m < 2 ^ 53 -> 0 <= k <= 1022 ->
  (x == inject_Z m / inject_Z (2 ^ k))%Q -> (fl x == x)%Q.
Proof.
  intros Hm Hk Hx. rewrite (fl_proper _ _ Hx), Hx. now apply (fl_exact fl Hfl).
Qed.

(** The value both roundings are applied to lies between 0 and 100. *)
Lemma ratio_bounds completed total :
  0 <= completed <= total -> 0 < total ->
  (0 <= multiply fl (divide fl (inject_Z completed) (inject_Z total)) 100
     <= 100)%Q.
Proof.
  intros [Hc Hct] Ht. unfold multiply, divide.
  assert (0 <= inject_Z completed / inject_Z total <= 1)%Q as Hq.
  { rewrite Zle_Qle in Hc, Hct. rewrite Zlt_Qlt in Ht.
    change (inject_Z 0) with 0%Q in *.
    split.
    - apply Qle_shift_div_l; lra.
    - apply Qle_shift_div_r; lra. }
  pose proof (fl_bounds 0 1 _ eq_refl eq_refl Hq) as Hd.
  change (inject_Z 0) with 0%Q in Hd. change (inject_Z 1) with 1%Q in Hd.
  apply (fl_bounds 0 100 _ eq_refl eq_refl).
  change (inject_Z 0) with 0%Q. change (inject_Z 100) with 100%Q.
  split; nra.
Qed.

End Rounding.
End NumberFacts.

(** ** Aggregation *)

Module StatsFacts.
Import Number NumberFacts Stats.

Lemma totalCount_cons {K} (e : K * Counts) l :
  totalCount (e :: l) = count e.2 + totalCount l.
Proof. reflexivity. Qed.

Lemma totalCompleted_cons {K} (e : K * Counts) l :
  totalCompleted (e :: l) = completedCount e.2 + totalCompleted l.
Proof. reflexivity. Qed.

Lemma totalCount_Permutation {K} (l1 l2 : list (K * Counts)) :
  l1 ≡ₚ l2 -> totalCount l1 = totalCount l2.
Proof.
  unfold totalCount.
  induction 1 as [| e l l' _ IH | e1 e2 l | l l' l'' _ IH1 _ IH2]; cbn;
    [reflexivity | rewrite IH; reflexivity | lia | congruence].
Qed.

Lemma totalCompleted_Permutation {K} (l1 l2 : list (K * Counts)) :
  l1 ≡ₚ l2 -> totalCompleted l1 = totalCompleted l2.
Proof.
  unfold totalCompleted.
  induction 1 as [| e l l' _ IH | e1 e2 l | l l' l'' _ IH1 _ IH2]; cbn;
    [reflexivity | rewrite IH; reflexivity | lia | congruence].
Qed.

Lemma completedIn_snoc docs g :
  completedIn (docs ++ [g]) = completedIn docs + cond10 (completed g).
Proof.
  unfold completedIn. rewrite filter_app, length_app, Nat2Z.inj_add.
  f_equal. rewrite filter_cons, filter_nil.
  destruct (completed g); case_decide; try congruence; reflexivity.
Qed.

Section Group.
Context {K : Type} `{Countable K}.
Variable key : Goal -> K.

Lemma group_snoc docs g :
  group key (docs ++ [g]) =
  <[key g := accumulate g (group key docs !! key g)]> (group key docs).
Proof. unfold group. rewrite fold_left_app. reflexivity. Qed.

(** What the [$group] stage holds for a key: nothing when no document
    has it, otherwise the number of its documents and how many of them are
    completed. *)
Lemma group_lookup docs k :
  group key docs !! k =
  match members key k docs with
  | [] => None
  | l => Some (mkCounts (Z.of_nat (length l)) (completedIn l))
  end.
Proof.
  induction docs as [| g docs IH] using rev_ind.
  - reflexivity.
  - rewrite group_snoc. unfold members in *. rewrite filter_app.
    destruct (decide (key g = k)) as [<- | Hne].
    + rewrite lookup_insert_eq, IH.
      rewrite (filter_cons_True (fun g0 => key g0 = key g)) by reflexivity.
      rewrite filter_nil.
      destruct (filter (fun g0 => key g0 = key g) docs) as [| g' l].
      * cbn [app accumulate]. f_equal. f_equal.
        apply symmetry, (completedIn_snoc [] g).
      * change ((g' :: l) ++ [g]) with (g' :: (l ++ [g])).
        cbn [accumulate count completedCount]. f_equal.
        change (g' :: (l ++ [g])) with ((g' :: l) ++ [g]).
        rewrite completedIn_snoc, length_app. f_equal.
        cbn [length]. lia.
    + rewrite lookup_insert_ne, IH by done.
      rewrite (filter_cons_False (fun g0 => key g0 = k)) by done.
      rewrite filter_nil, app_nil_r. reflexivity.
Qed.

Lemma completedIn_bounds docs : 0 <= completedIn docs <= Z.of_nat (length docs).
Proof.
  unfold completedIn. split; [lia |].
  apply inj_le, length_filter.
Qed.

Lemma group_lookup_Some docs k c :
  group key docs !! k = Some c ->
  1 <= count c /\ 0 <= completedCount c <= count c /\
  exists g, g ∈ docs /\ key g = k.
Proof.
  rewrite group_lookup. destruct (members key k docs) as [| g l] eqn:Hm; [done |].
  intros [= <-]. cbn [count completedCount].
  pose proof (completedIn_bounds (g :: l)) as Hb.
  split; [cbn; lia |]. split; [exact Hb |].
  exists g.
  assert (g ∈ members key k docs) as Hin by (rewrite Hm; left).
  apply (list_elem_of_filter (fun g => key g = k)) in Hin as [Hk Hg].
  split; assumption.
Qed.

Lemma group_lookup_is_Some docs k :
  is_Some (group key docs !! k) <-> exists g, g ∈ docs /\ key g = k.
Proof.
  split.
  - intros [c Hc]. now apply group_lookup_Some in Hc as (_ & _ & Hg).
  - intros (g & Hg & Hk). rewrite group_lookup.
    destruct (members key k docs) as [| g' l] eqn:Hm; [| eauto].
    exfalso. eapply (filter_nil_not_elem_of (fun g => key g = k)); eauto.
Qed.

(** The groups partition the documents: their counters add up to the
    counts of the whole list. *)
Lemma group_step_totals (m : gmap K Counts) g :
  totalCount (map_to_list (<[key g := accumulate g (m !! key g)]> m)) =
    totalCount (map_to_list m) + 1 /\
  totalCompleted (map_to_list (<[key g := accumulate g (m !! key g)]> m)) =
    totalCompleted (map_to_list m) + cond10 (completed g).
Proof.
  destruct (m !! key g) as [c |] eqn:Hlook.
  - rewrite <- insert_delete_eq.
    rewrite (totalCount_Permutation _ _
               (map_to_list_insert (delete (key g) m) (key g) _
                  (lookup_delete_eq m (key g)))).
    rewrite (totalCompleted_Permutation _ _
               (map_to_list_insert (delete (key g) m) (key g) _
                  (lookup_delete_eq m (key g)))).
    rewrite <- (totalCount_Permutation _ _ (map_to_list_delete m (key g) c Hlook)).
    rewrite <- (totalCompleted_Permutation _ _
                  (map_to_list_delete m (key g) c Hlook)).
    rewrite !totalCount_cons, !totalCompleted_cons.
    cbn [snd accumulate count completedCount]. split; lia.
  - rewrite (totalCount_Permutation _ _ (map_to_list_insert m (key g) _ Hlook)).
    rewrite (totalCompleted_Permutation _ _
               (map_to_list_insert m (key g) _ Hlook)).
    rewrite !totalCount_cons, !totalCompleted_cons.
    cbn [snd accumulate count completedCount]. split; lia.
Qed.

Lemma group_totals docs :
  totalCount (map_to_list (group key docs)) = Z.of_nat (length docs) /\
  totalCompleted (map_to_list (group key docs)) = completedIn docs.
Proof.
  induction docs as [| g docs [IHt IHc]] using rev_ind.
  - unfold group. cbn. rewrite map_to_list_empty. split; reflexivity.
  - rewrite group_snoc.
    destruct (group_step_totals (group key docs) g) as [-> ->].
    rewrite IHt, IHc, completedIn_snoc, length_app. cbn. lia.
Qed.

End Group.

(** *** [getStatsByUser] *)

(** C10: for a user none of whose goals are in the collection,
    [getStatsByUser] returns [{ total: 0, completed: 0, overdue: 0 }]. *)
Theorem getStatsByUser_no_goals now uid goals
  (Hnone : forall g, g ∈ goals -> userId g <> uid) :
  getStatsByUser now uid goals = mkUserStats 0 0 0.
Proof.
  unfold getStatsByUser.
  assert (matchUser uid goals = []) as ->; [| reflexivity].
  unfold matchUser. induction goals as [| g goals IH]; [reflexivity |].
  rewrite filter_cons_False by (apply Hnone; left).
  apply IH. intros g' Hg'. apply Hnone. now right.
Qed.

Lemma getStatsByUser_no_goals_witness :
  getStatsByUser 1000 "u1" [mkGoal "u2" "health" "high" true 0 0 0] =
  mkUserStats 0 0 0.
Proof.
  apply getStatsByUser_no_goals.
  intros g Hg. apply list_elem_of_singleton in Hg as ->. discriminate.
Defined.

(** *** Percentages *)

Lemma countDocuments_nonneg query goals : 0 <= countDocuments query goals.
Proof. unfold countDocuments. lia. Qed.

Lemma countDocuments_and_le p q goals :
  countDocuments (fun g => p g && q g) goals <= countDocuments p goals.
Proof.
  unfold countDocuments. apply inj_le.
  induction goals as [| g goals IH]; cbn; [lia |].
  destruct (p g), (q g); cbn; lia.
Qed.

Section Percentages.
Variable fl : Q -> Q.
Hypothesis Hfl : faithful_rounding fl.

Lemma completionRate_zero completed : completionRate fl completed 0 = 0.
Proof. reflexivity. Qed.

Lemma completionRate_half_up completed total :
  0 < total ->
  round_half_up (ratio fl completed total) (completionRate fl completed total).
Proof.
  intros Ht. unfold completionRate.
  destruct (Z.gtb_spec total 0); [| lia]. apply Math_round_half_up.
Qed.

Lemma completionRate_bounds completed total :
  0 <= completed <= total -> 0 <= completionRate fl completed total <= 100.
Proof.
  intros Hc. unfold completionRate.
  destruct (Z.gtb_spec total 0); [| lia].
  apply Math_round_bounds, ratio_bounds; [assumption | assumption | lia].
Qed.

Lemma percentage_half_even completed total :
  round_half_even (ratio fl completed total) (percentage fl completed total).
Proof. apply mongo_round_half_even. Qed.

Lemma percentage_bounds completed total :
  0 <= completed <= total -> 0 < total ->
  0 <= percentage fl completed total <= 100.
Proof.
  intros Hc Ht. apply mongo_round_bounds, ratio_bounds; assumption.
Qed.

(** Every document [getStatsByCategory] returns is the projection of a
    group of the user's goals. *)
Lemma getStatsByCategory_elem uid goals e :
  e ∈ getStatsByCategory fl uid goals <->
  exists c,
    group category (matchUser uid goals) !! cs_category e = Some c /\
    e = project fl (cs_category e, c).
Proof.
  unfold getStatsByCategory.
  change (map (project fl)) with (fmap (M := list) (project fl)).
  rewrite list_elem_of_fmap. split.
  - intros ([k c] & -> & Hin). apply elem_of_map_to_list in Hin.
    exists c. cbn. auto.
  - intros (c & Hlook & ->). exists (cs_category e, c).
    split; [reflexivity |]. now apply elem_of_map_to_list.
Qed.

(** C7 (as the code behaves): the dashboard's [completionRate] is
    [Math.round], round half up, of the computed [(completed / total) * 100],
    and is 0 when there is no goal; the [percentage] of
    [getStatsByCategory] is MongoDB's [$round], round half to even, of the
    same value, and exists only for categories with at least one goal;
    both lie between 0 and 100, as they do for all integers
    [0 <= completed <= total]. *)
Theorem percentages_rounded_and_bounded now uid goals :
  let s := dashboardSummary fl now uid goals in
  (sm_total s = 0 -> sm_completionRate s = 0) /\
  (0 < sm_total s ->
   round_half_up (ratio fl (sm_completed s) (sm_total s)) (sm_completionRate s)) /\
  0 <= sm_completionRate s <= 100 /\
  (forall e, e ∈ getStatsByCategory fl uid goals ->
     0 < cs_total e /\
     round_half_even (ratio fl (cs_completed e) (cs_total e)) (cs_percentage e) /\
     0 <= cs_percentage e <= 100) /\
  (forall completed total, 0 <= completed <= total ->
     completionRate fl completed 0 = 0 /\
     0 <= completionRate fl completed total <= 100 /\
     (0 < total -> 0 <= percentage fl completed total <= 100)).
Proof.
  cbn zeta. unfold dashboardSummary. cbn [sm_total sm_completed sm_completionRate].
  repeat apply conj.
  - intros ->. apply completionRate_zero.
  - apply completionRate_half_up.
  - apply completionRate_bounds. split; [apply countDocuments_nonneg |].
    apply countDocuments_and_le.
  - apply completionRate_bounds. split; [apply countDocuments_nonneg |].
    apply countDocuments_and_le.
  - intros e (c & Hlook & ->)%getStatsByCategory_elem.
    apply group_lookup_Some in Hlook as (Hpos & Hdone & _).
    cbn [project cs_total cs_completed cs_percentage fst snd].
    split; [lia |]. split; [apply percentage_half_even |].
    apply percentage_bounds; [assumption | lia].
  - intros completed total Hc.
    split; [apply completionRate_zero |].
    split; [now apply completionRate_bounds |].
    intros Ht. now apply percentage_bounds.
Qed.

(** A percentage whose quotient and product are both representable is
    the rounding of the exact value. *)
Lemma percentage_representable completed total q r m1 k1 m2 k2 :
  (inject_Z completed / inject_Z total == q)%Q ->
  Z.abs m1 < 2 ^ 53 -> 0 <= k1 <= 1022 ->
  (q == inject_Z m1 / inject_Z (2 ^ k1))%Q ->
  (q * 100 == r)%Q ->
  Z.abs m2 < 2 ^ 53 -> 0 <= k2 <= 1022 ->
  (r == inject_Z m2 / inject_Z (2 ^ k2))%Q ->
  percentage fl completed total = mongo_round r.
Proof.
  intros Hq Hm1 Hk1 Hq' Hr Hm2 Hk2 Hr'.
  unfold percentage, multiply, divide. apply mongo_round_comp.
  assert (fl (inject_Z completed / inject_Z total) == q)%Q as E1.
  { rewrite (fl_proper fl Hfl _ _ Hq).
    apply (fl_representable fl Hfl q m1 k1); assumption. }
  assert (fl (inject_Z completed / inject_Z total) * 100 == r)%Q as E2
    by (rewrite E1; exact Hr).
  rewrite (fl_proper fl Hfl _ _ E2).
  apply (fl_representable fl Hfl r m2 k2); assumption.
Qed.

Lemma percentage_1_of_1 : percentage fl 1 1 = 100.
Proof.
  rewrite (percentage_representable 1 1 1 100 1 0 100 0); reflexivity || lia.
Qed.

Lemma percentage_1_of_2 : percentage fl 1 2 = 50.
Proof.
  rewrite (percentage_representable 1 2 (1 # 2) 50 1 1 50 0);
    reflexivity || lia.
Qed.

(** One of eight: the exact value is 12.5, a tie, and goes to the even 12. *)
Lemma percentage_1_of_8 : percentage fl 1 8 = 12.
Proof.
  rewrite (percentage_representable 1 8 (1 # 8) (25 # 2) 1 3 25 1);
    reflexivity || lia.
Qed.

(** C8: [getStatsByCategory] returns exactly one document for each
    category that occurs among the user's goals and none for the others;
    for two health goals, one of them completed, and one completed career
    goal it returns health with 2, 1 and 50 and career with 1, 1 and 100. *)
Theorem getStatsByCategory_present_categories uid goals :
  let out := getStatsByCategory fl uid goals in
  NoDup (map cs_category out) /\
  (forall c,
     c ∈ map cs_category out <->
     exists g, g ∈ goals /\ userId g = uid /\ category g = c) /\
  (forall g1 g2 g3,
     goal_of uid "health" true g1 ->
     goal_of uid "health" false g2 ->
     goal_of uid "career" true g3 ->
     getStatsByCategory fl uid [g1; g2; g3] ≡ₚ
     [ mkCategoryStats "health" 2 1 50; mkCategoryStats "career" 1 1 100 ]).
Proof.
  cbn zeta.
  assert (forall l, map cs_category (getStatsByCategory fl uid l) =
                    (map_to_list (group category (matchUser uid l))).*1) as Hkeys.
  { intros l. unfold getStatsByCategory.
    generalize (map_to_list (group category (matchUser uid l))).
    intros docs. induction docs as [| [k c] docs IH]; cbn; [reflexivity |].
    now rewrite IH. }
  split; [| split].
  - rewrite Hkeys. apply NoDup_fst_map_to_list.
  - intros c. rewrite Hkeys, list_elem_of_fmap. split.
    + intros ([k n] & -> & Hin). apply elem_of_map_to_list in Hin.
      apply group_lookup_Some in Hin as (_ & _ & g & Hg & Hk).
      apply list_elem_of_filter in Hg as [Hu Hg]. eauto.
    + intros (g & Hg & Hu & Hc).
      destruct (proj2 (group_lookup_is_Some category (matchUser uid goals) c))
        as [n Hn].
      { exists g. split; [| exact Hc]. now apply list_elem_of_filter. }
      exists (c, n). split; [reflexivity | now apply elem_of_map_to_list].
  - intros [u1 c1 p1 f1 d1 t1 w1] [u2 c2 p2 f2 d2 t2 w2] [u3 c3 p3 f3 d3 t3 w3].
    unfold goal_of. cbn [userId category completed].
    intros (-> & -> & ->) (-> & -> & ->) (-> & -> & ->).
    unfold getStatsByCategory, matchUser.
    rewrite !(filter_cons_True (fun g => userId g = uid)) by reflexivity.
    rewrite filter_nil.
    match goal with
    | |- context [map_to_list ?m] =>
        assert (map_to_list m =
                [("career", mkCounts 1 1); ("health", mkCounts 2 1)]) as ->
          by (vm_compute; reflexivity)
    end.
    cbn [map]. unfold project. cbn [fst snd count completedCount].
    rewrite percentage_1_of_1, percentage_1_of_2. apply perm_swap.
Qed.

End Percentages.

(** C7, counterexample: a user with eight health goals, one of them
    completed.  The exact percentage is 12.5 (and 1/8 and 12.5 are
    representable doubles); [getStatsByCategory] reports 12, whereas round
    half up gives 13. *)
Lemma category_percentage_not_half_up :
  getStatsByCategory (fun x => x) "u1" oneOfEight =
    [mkCategoryStats "health" 8 1 12] /\
  round_half_up (inject_Z 1 / inject_Z 8 * 100) 13 /\
  ~ round_half_up (inject_Z 1 / inject_Z 8 * 100) 12.
Proof.
  split; [vm_compute; reflexivity |].
  unfold round_half_up, Qle, Qlt. cbn. lia.
Qed.

(** In binary64 the rounded value can fall just short of a tie: with 23
    of 40 goals completed the computed product is 57.49999999999999 and the
    dashboard reports 57, where the exact 57.5 rounds half up to 58. *)
Lemma completionRate_binary64_23_of_40 :
  completionRate binary64 23 40 = 57 /\
  round_half_up (inject_Z 23 / inject_Z 40 * 100) 58.
Proof.
  split; [vm_compute; reflexivity |].
  unfold round_half_up, Qle, Qlt. cbn. lia.
Qed.

Lemma percentages_rounded_and_bounded_witness :
  0 <= sm_completionRate (dashboardSummary (fun x => x) 1000 "u1" oneOfEight)
    <= 100.
Proof.
  pose proof (percentages_rounded_and_bounded (fun x => x)
                exact_arithmetic_faithful 1000 "u1" oneOfEight)
    as (_ & _ & Hrange & _).
  exact Hrange.
Defined.

Lemma getStatsByCategory_present_categories_witness :
  getStatsByCategory (fun x => x) "u1"
    [ mkGoal "u1" "health" "high" true 0 0 0;
      mkGoal "u1" "health" "low" false 0 0 0;
      mkGoal "u1" "career" "medium" true 0 0 0 ] ≡ₚ
  [ mkCategoryStats "health" 2 1 50; mkCategoryStats "career" 1 1 100 ].
Proof.
  apply (getStatsByCategory_present_categories (fun x => x)
           exact_arithmetic_faithful "u1" []);
    repeat split.
Defined.

(** *** Progress over time *)

Section Progress.
Variable fl : Q -> Q.
Context {K : Type} `{Countable K}.
Variable dateToString : Z -> K.
Variable keyLe : K -> K -> Prop.
Context `{forall x y, Decision (keyLe x y)}.
Hypothesis keyLe_total : Total keyLe.
Hypothesis keyLe_trans : Transitive keyLe.

Lemma bucketLe_total : Total (bucketLe keyLe).
Proof. intros a b. apply keyLe_total. Qed.

Lemma bucketLe_trans : Transitive (bucketLe keyLe).
Proof. intros a b c. apply keyLe_trans. Qed.

Lemma cumulate_dates (days : list (K * Counts)) : forall t c,
  map pp_date (cumulate fl t c days) = map fst days.
Proof.
  induction days as [| d days IH]; intros t c; cbn; [reflexivity |].
  now rewrite IH.
Qed.

Lemma cumulate_length (days : list (K * Counts)) : forall t c,
  length (cumulate fl t c days) = length days.
Proof.
  induction days as [| d days IH]; intros t c; cbn; [reflexivity |].
  now rewrite IH.
Qed.

(** Point [i] carries the sums of the first [i + 1] buckets. *)
Lemma cumulate_lookup (days : list (K * Counts)) : forall t c i p,
  cumulate fl t c days !! i = Some p ->
  pp_total p = t + totalCount (take (S i) days) /\
  pp_completed p = c + totalCompleted (take (S i) days).
Proof.
  induction days as [| d days IH]; intros t c i p Hp; [discriminate |].
  destruct i as [| i].
  - injection Hp as <-. cbn [pp_total pp_completed].
    change (take 1 (d :: days)) with [d].
    unfold totalCount, totalCompleted. cbn [foldr]. split; lia.
  - apply IH in Hp as [Ht Hc].
    change (take (S (S i)) (d :: days)) with (d :: take (S i) days).
    rewrite totalCount_cons, totalCompleted_cons. lia.
Qed.

Lemma progressData_totals uid startDate goals :
  totalCount (progressData dateToString keyLe uid startDate goals) =
    Z.of_nat (length (inWindow uid startDate goals)) /\
  totalCompleted (progressData dateToString keyLe uid startDate goals) =
    completedIn (inWindow uid startDate goals).
Proof.
  unfold progressData.
  rewrite (totalCount_Permutation _ _ (merge_sort_Permutation _ _)).
  rewrite (totalCompleted_Permutation _ _ (merge_sort_Permutation _ _)).
  apply group_totals.
Qed.

(** C9: the progress points are in ascending order of their date key;
    the [total] and [completed] of each point are the running sums of the
    per-day [created] and [completed] counters up to that day; and at the
    last point they equal the number of the user's goals created in the
    window and the number of those that are completed now. *)
Theorem cumulativeProgress_running_totals uid startDate goals :
  let window := inWindow uid startDate goals in
  let days := progressData dateToString keyLe uid startDate goals in
  let points := cumulativeProgress fl dateToString keyLe uid startDate goals in
  StronglySorted keyLe (map pp_date points) /\
  (forall i p, points !! i = Some p ->
     pp_total p = totalCount (take (S i) days) /\
     pp_completed p = totalCompleted (take (S i) days)) /\
  (forall p, last points = Some p ->
     pp_total p = Z.of_nat (length window) /\
     pp_completed p = completedIn window).
Proof.
  cbn zeta. unfold cumulativeProgress.
  set (days := progressData dateToString keyLe uid startDate goals).
  split; [| split].
  - rewrite cumulate_dates.
    apply (StronglySorted_fmap fst (bucketLe keyLe) keyLe); [auto |].
    apply (StronglySorted_merge_sort (bucketLe keyLe)
             (Transitive0 := bucketLe_trans) (Total0 := bucketLe_total)).
  - intros i p Hp. apply cumulate_lookup in Hp as [-> ->]. lia.
  - intros p Hp. rewrite last_lookup, cumulate_length in Hp.
    assert (take (S (pred (length days))) days = days) as Hall
      by (apply take_ge; lia).
    apply cumulate_lookup in Hp as [-> ->]. rewrite Hall.
    destruct (progressData_totals uid startDate goals) as [Ht Hc].
    fold days in Ht, Hc. lia.
Qed.

End Progress.

Lemma cumulativeProgress_running_totals_witness :
  pp_total (mkPoint 3 3 2 67) =
    Z.of_nat (length (inWindow "u1" Calendar.msPerDay progressExample)) /\
  pp_completed (mkPoint 3 3 2 67) =
    completedIn (inWindow "u1" Calendar.msPerDay progressExample).
Proof.
  apply (cumulativeProgress_running_totals (fun x => x) utcDay Z.le _ _
           "u1" Calendar.msPerDay progressExample).
  vm_compute. reflexivity.
Defined.

End StatsFacts.

(** ** Overview statistics, dashboard and achievements *)

Module StatsMore.
Import Number NumberFacts Stats StatsFacts StatsRoutes Notions.

Lemma fold_sum_acc (f : Goal -> Z) docs : forall a,
  fold_left (fun acc g => acc + f g) docs a = a + sum_over f docs.
Proof.
  unfold sum_over. induction docs as [| g docs IH]; intros a; cbn [fold_left].
  - lia.
  - rewrite (IH (a + f g)), (IH (0 + f g)). lia.
Qed.

Lemma sum_over_cons f g docs : sum_over f (g :: docs) = f g + sum_over f docs.
Proof. unfold sum_over at 1. cbn [fold_left]. rewrite fold_sum_acc. lia. Qed.

Lemma sum_over_ones docs : sum_over (fun _ => 1) docs = Z.of_nat (length docs).
Proof.
  induction docs as [| g docs IH]; [reflexivity |].
  rewrite sum_over_cons, IH. cbn [length]. lia.
Qed.

(** A [$sum] of [$cond: [p, 1, 0]] counts the documents with [p]. *)
Lemma sum_over_cond (P : Goal -> Prop) `{forall g, Decision (P g)} docs :
  sum_over (fun g => cond10 (bool_decide (P g))) docs =
  Z.of_nat (length (filter P docs)).
Proof.
  induction docs as [| g docs IH]; [reflexivity |].
  rewrite sum_over_cons, IH, filter_cons.
  destruct (decide (P g)) as [Hp | Hp].
  - rewrite bool_decide_eq_true_2 by done. cbn [length cond10]. lia.
  - rewrite bool_decide_eq_false_2 by done. cbn [cond10]. lia.
Qed.

Lemma sum_over_ext f1 f2 docs :
  (forall g, f1 g = f2 g) -> sum_over f1 docs = sum_over f2 docs.
Proof.
  intros Hext. induction docs as [| g docs IH]; [reflexivity |].
  now rewrite !sum_over_cons, IH, Hext.
Qed.

Lemma completed_overdue_le now mine :
  completedIn mine + Z.of_nat (length (overdueIn now mine)) <=
  Z.of_nat (length mine).
Proof.
  unfold completedIn, overdueIn.
  induction mine as [| g mine IH]; [reflexivity |].
  rewrite !filter_cons. cbn [length].
  destruct (decide (completed g = true)) as [Hc | Hc];
    destruct (decide (completed g = false /\ deadline g < now)) as [[Hn _] | Hn];
    cbn [length]; try congruence; lia.
Qed.

(** The value of [getStatsByUser], whether or not the user has goals. *)
Lemma getStatsByUser_value now uid goals :
  getStatsByUser now uid goals =
  mkUserStats (Z.of_nat (length (matchUser uid goals)))
              (completedIn (matchUser uid goals))
              (Z.of_nat (length (overdueIn now (matchUser uid goals)))).
Proof.
  unfold getStatsByUser, groupAll.
  destruct (matchUser uid goals) as [| g mine] eqn:Hmine; [reflexivity |].
  f_equal.
  - apply sum_over_ones.
  - unfold completedIn.
    rewrite <- (sum_over_cond (fun g => completed g = true)).
    apply sum_over_ext. intros g'. now destruct (completed g').
  - unfold overdueIn.
    rewrite <- (sum_over_cond
                  (fun g => completed g = false /\ deadline g < now)).
    apply sum_over_ext. intros g'. f_equal.
    destruct (completed g'); cbn.
    + symmetry. apply bool_decide_eq_false_2. intros [? _]. discriminate.
    + destruct (Z.ltb_spec (deadline g') now).
      * symmetry. now apply bool_decide_eq_true_2.
      * symmetry. apply bool_decide_eq_false_2. intros [_ ?]. lia.
Qed.


(** X5: the result of [getStatsByUser] depends neither on the order
    of the collection nor on the goals of other users. *)
Theorem getStatsByUser_other_users now uid goals goals' others
  (Hperm : goals ≡ₚ goals')
  (Hothers : forall g, g ∈ others -> userId g <> uid) :
  getStatsByUser now uid (goals' ++ others) = getStatsByUser now uid goals.
Proof.
  rewrite !getStatsByUser_value.
  assert (matchUser uid others = []) as Hnone.
  { unfold matchUser. induction others as [| g others IH]; [reflexivity |].
    rewrite filter_cons_False by (apply Hothers; left).
    apply IH. intros g' Hg'. apply Hothers. now right. }
  assert (matchUser uid (goals' ++ others) ≡ₚ matchUser uid goals) as Hmine.
  { unfold matchUser in *. rewrite filter_app, Hnone, app_nil_r.
    now rewrite Hperm. }
  unfold completedIn, overdueIn. now rewrite !Hmine.
Qed.

Lemma getStatsByUser_other_users_witness :
  getStatsByUser 1000 "u1"
    ([ mkGoal "u1" "skill" "low" false 10 0 0;
       mkGoal "u1" "health" "high" true 0 0 0 ]
     ++ [ mkGoal "u2" "health" "high" true 0 0 0 ]) =
  getStatsByUser 1000 "u1"
    [ mkGoal "u1" "health" "high" true 0 0 0;
      mkGoal "u1" "skill" "low" false 10 0 0 ].
Proof.
  apply getStatsByUser_other_users.
  - apply perm_swap.
  - intros g Hg. apply list_elem_of_singleton in Hg as ->. discriminate.
Defined.

(** X6: [updateStats] stores the number of goals whose [userId] is
    the document's [firebaseUid] and the number of those that are
    completed, so that [0 <= completedGoals <= totalGoals] afterwards; the
    uid and the streak are left as they were. *)
Theorem updateStats_counts now goals this :
  let this' := updateStats now goals this in
  let mine := matchUser (firebaseUid this) goals in
  totalGoals this' = Z.of_nat (length mine) /\
  completedGoals this' = completedIn mine /\
  0 <= completedGoals this' <= totalGoals this' /\
  firebaseUid this' = firebaseUid this /\
  streak this' = streak this.
Proof.
  cbn zeta. unfold updateStats. rewrite getStatsByUser_value.
  cbn [totalGoals completedGoals firebaseUid streak us_total us_completed].
  pose proof (completedIn_bounds (matchUser (firebaseUid this) goals)).
  repeat split; lia.
Qed.

(** *** Dashboard *)

Lemma countDocuments_decide (P : Goal -> Prop) `{forall g, Decision (P g)}
  (q : Goal -> bool) goals :
  (forall g, q g = bool_decide (P g)) ->
  countDocuments q goals = Z.of_nat (length (filter P goals)).
Proof.
  intros Hq. unfold countDocuments. f_equal.
  induction goals as [| g goals IH]; [reflexivity |].
  cbn [List.filter]. rewrite filter_cons, Hq.
  destruct (decide (P g)) as [Hp | Hp].
  - rewrite bool_decide_eq_true_2 by done. cbn [length]. now rewrite IH.
  - now rewrite bool_decide_eq_false_2 by done.
Qed.

Lemma countDocuments_matchUser uid (q : Goal -> bool) goals :
  countDocuments (fun g => bool_decide (userId g = uid) && q g) goals =
  countDocuments q (matchUser uid goals).
Proof.
  unfold countDocuments, matchUser. f_equal.
  induction goals as [| g goals IH]; [reflexivity |].
  cbn [List.filter]. rewrite filter_cons.
  destruct (decide (userId g = uid)) as [Hu | Hu].
  - rewrite bool_decide_eq_true_2 by done. cbn [andb List.filter].
    destruct (q g); cbn [length]; now rewrite IH.
  - now rewrite bool_decide_eq_false_2 by done.
Qed.

(** When every completion flag is a boolean, the summary has
    [total = completed + active] and [0 <= overdue <= active]; its total,
    completed and overdue are the numbers that [getStatsByUser] reports for
    the same user and instant. *)
Lemma dashboardSummary_consistent fl now uid goals :
  let s := dashboardSummary fl now uid goals in
  let stats := getStatsByUser now uid goals in
  sm_total s = sm_completed s + sm_active s /\
  0 <= sm_overdue s <= sm_active s /\
  sm_total s = us_total stats /\
  sm_completed s = us_completed stats /\
  sm_overdue s = us_overdue stats.
Proof.
  cbn zeta. rewrite getStatsByUser_value. unfold dashboardSummary.
  cbn [sm_total sm_completed sm_active sm_overdue
       us_total us_completed us_overdue].
  rewrite (countDocuments_decide (fun g => userId g = uid)) by reflexivity.
  fold (matchUser uid goals).
  rewrite (countDocuments_matchUser uid completed).
  rewrite (countDocuments_matchUser uid (fun g => negb (completed g))).
  assert (forall l,
    countDocuments
      (fun g => bool_decide (userId g = uid) && negb (completed g)
                && (deadline g <? now)) l =
    countDocuments (fun g => negb (completed g) && (deadline g <? now))
      (matchUser uid l)) as ->.
  { intros l. rewrite <- countDocuments_matchUser. unfold countDocuments.
    do 2 f_equal. apply List.filter_ext. intros g.
    now rewrite andb_assoc. }
  generalize (matchUser uid goals). intros mine.
  rewrite (countDocuments_decide (fun g => completed g = true) completed)
    by (intros g; now destruct (completed g)).
  rewrite (countDocuments_decide (fun g => completed g = false)
             (fun g => negb (completed g)))
    by (intros g; now destruct (completed g)).
  rewrite (countDocuments_decide
             (fun g => completed g = false /\ deadline g < now)
             (fun g => negb (completed g) && (deadline g <? now))).
  2:{ intros g. destruct (completed g); cbn.
      - symmetry. apply bool_decide_eq_false_2. intros [? _]. discriminate.
      - destruct (Z.ltb_spec (deadline g) now).
        + symmetry. now apply bool_decide_eq_true_2.
        + symmetry. apply bool_decide_eq_false_2. intros [_ ?]. lia. }
  unfold completedIn, overdueIn.
  induction mine as [| g mine IH]; [cbn; lia |].
  rewrite !filter_cons. cbn [length].
  destruct (decide (completed g = true)) as [Hc | Hc];
    destruct (decide (completed g = false)) as [Hn | Hn];
    destruct (decide (completed g = false /\ deadline g < now)) as [[Hn' _] | Hn'];
    cbn [length]; try congruence;
    try (destruct (completed g); congruence); lia.
Qed.

Lemma sm_total_value fl now uid goals :
  sm_total (dashboardSummary fl now uid goals) =
  Z.of_nat (length (matchUser uid goals)).
Proof.
  unfold dashboardSummary. cbn [sm_total].
  now rewrite (countDocuments_decide (fun g => userId g = uid)).
Qed.

Lemma sm_completed_value fl now uid goals :
  sm_completed (dashboardSummary fl now uid goals) =
  completedIn (matchUser uid goals).
Proof.
  unfold dashboardSummary. cbn [sm_completed].
  rewrite (countDocuments_matchUser uid completed).
  apply (countDocuments_decide (fun g => completed g = true)).
  intros g. now destruct (completed g).
Qed.

Lemma group_entries {K} `{Countable K} (key : Goal -> K) docs k c :
  (k, c) ∈ map_to_list (group key docs) ->
  1 <= count c /\ 0 <= completedCount c <= count c /\
  count c = Z.of_nat (length (members key k docs)) /\
  completedCount c = completedIn (members key k docs).
Proof.
  intros Hin. apply elem_of_map_to_list in Hin.
  pose proof (group_lookup_Some key docs k c Hin) as (H1 & H2 & _).
  rewrite group_lookup in Hin.
  destruct (members key k docs) as [| g l]; [discriminate |].
  injection Hin as <-. cbn [count completedCount] in *. auto.
Qed.

(** X8: the dashboard's [byCategory] and [byPriority] blocks each
    have one entry per value that occurs among the user's goals; every
    entry counts at least one goal and at most as many completed goals as
    goals, namely the user's goals with that value; and the counters of
    each block add up to the summary's [total] and [completed]. *)
Theorem dashboard_breakdowns fl now uid goals :
  let s := dashboardSummary fl now uid goals in
  let mine := matchUser uid goals in
  (totalCount (categoryStats uid goals) = sm_total s /\
   totalCompleted (categoryStats uid goals) = sm_completed s /\
   totalCount (priorityStats uid goals) = sm_total s /\
   totalCompleted (priorityStats uid goals) = sm_completed s) /\
  (NoDup (categoryStats uid goals).*1 /\ NoDup (priorityStats uid goals).*1) /\
  (forall k c, (k, c) ∈ categoryStats uid goals ->
     1 <= count c /\ 0 <= completedCount c <= count c /\
     count c = Z.of_nat (length (members category k mine)) /\
     completedCount c = completedIn (members category k mine)) /\
  (forall k c, (k, c) ∈ priorityStats uid goals ->
     1 <= count c /\ 0 <= completedCount c <= count c /\
     count c = Z.of_nat (length (members priority k mine)) /\
     completedCount c = completedIn (members priority k mine)).
Proof.
  cbn zeta. rewrite sm_total_value, sm_completed_value.
  unfold categoryStats, priorityStats.
  destruct (group_totals category (matchUser uid goals)) as [-> ->].
  destruct (group_totals priority (matchUser uid goals)) as [-> ->].
  split; [auto |]. split; [split; apply NoDup_fst_map_to_list |].
  split; intros k c; apply group_entries.
Qed.

(** X9: in the answer of [GET /api/goals/stats/overview] the
    category documents add up to the overview: their [total]s sum to the
    overview's [total] and their [completed]s to its [completed], and no
    category has more completed goals than goals. *)
Theorem overview_categories_add_up fl now uid goals :
  let overview := getStatsByUser now uid goals in
  let categories := getStatsByCategory fl uid goals in
  sumTotal categories = us_total overview /\
  sumCompleted categories = us_completed overview /\
  Forall (fun e => 1 <= cs_total e /\ 0 <= cs_completed e <= cs_total e)
         categories.
Proof.
  cbn zeta. rewrite getStatsByUser_value. cbn [us_total us_completed].
  unfold getStatsByCategory.
  destruct (group_totals category (matchUser uid goals)) as [<- <-].
  assert (forall l, sumTotal (map (project fl) l) = totalCount l /\
                    sumCompleted (map (project fl) l) = totalCompleted l)
    as Hsum.
  { induction l as [| [k c] l [IHt IHc]]; [split; reflexivity |].
    cbn [map]. unfold sumTotal, sumCompleted in *. cbn [foldr].
    rewrite IHt, IHc, totalCount_cons, totalCompleted_cons. split; reflexivity. }
  destruct (Hsum (map_to_list (group category (matchUser uid goals))))
    as [-> ->].
  split; [reflexivity |]. split; [reflexivity |].
  apply Forall_forall. intros e He.
  change (map (project fl)) with (fmap (M := list) (project fl)) in He.
  apply list_elem_of_fmap in He as ([k c] & -> & Hin).
  apply group_entries in Hin as (H1 & H2 & _).
  cbn [project cs_total cs_completed fst snd]. split; assumption.
Qed.

(** *** Progress over time *)

Lemma inWindow_later uid start1 start2 goals :
  start1 <= start2 ->
  inWindow uid start2 goals =
  filter (fun g => start2 <= createdAt g) (inWindow uid start1 goals).
Proof.
  intros Hle. unfold inWindow.
  induction goals as [| g goals IH]; [reflexivity |].
  rewrite !filter_cons.
  destruct (decide (userId g = uid /\ start2 <= createdAt g)) as [[Hu H2] | Hn].
  - rewrite decide_True by (split; [done | lia]).
    rewrite filter_cons, decide_True by done. now rewrite IH.
  - destruct (decide (userId g = uid /\ start1 <= createdAt g)) as [[Hu H1] | H1];
      [| exact IH].
    rewrite filter_cons, decide_False by (intros ?; apply Hn; auto).
    exact IH.
Qed.

(** X10: a request without [period], or with one that is not [7d],
    [30d], [90d] or [1y], is served with the 30-day window; and the 7-day
    window selects a sublist of the goals of the 30-day window, which
    selects a sublist of those of the 90-day window. *)
Theorem startDate_windows yearAgo now uid goals :
  let window p := inWindow uid (startDate yearAgo p now) goals in
  startDate yearAgo None now = startDate yearAgo (Some "30d") now /\
  (forall p, p <> "7d" -> p <> "30d" -> p <> "90d" -> p <> "1y" ->
     startDate yearAgo (Some p) now = startDate yearAgo (Some "30d") now) /\
  window (Some "7d") `sublist_of` window (Some "30d") /\
  window (Some "30d") `sublist_of` window (Some "90d").
Proof.
  cbn zeta. split; [reflexivity |]. split.
  - intros p H7 H30 H90 H1y. unfold startDate. cbn [default].
    rewrite !(proj2 (String.eqb_neq _ _)) by assumption. reflexivity.
  - pose proof CalendarFacts.msPerDay_pos.
    split.
    + rewrite (inWindow_later uid (startDate yearAgo (Some "30d") now)
                 (startDate yearAgo (Some "7d") now))
        by (cbn; lia).
      apply sublist_filter.
    + rewrite (inWindow_later uid (startDate yearAgo (Some "90d") now)
                 (startDate yearAgo (Some "30d") now))
        by (cbn; lia).
      apply sublist_filter.
Qed.

Section Progress.
Variable fl : Q -> Q.
Hypothesis Hfl : faithful_rounding fl.
Context {K : Type} `{Countable K}.
Variable dateToString : Z -> K.
Variable keyLe : K -> K -> Prop.
Context `{forall x y, Decision (keyLe x y)}.

Lemma progressData_buckets uid start goals :
  Forall sound_bucket (progressData dateToString keyLe uid start goals).
Proof.
  apply Forall_forall. intros [k c] Hin. unfold progressData in Hin.
  rewrite merge_sort_Permutation in Hin.
  apply group_entries in Hin as (H1 & H2 & _). split; assumption.
Qed.

Lemma cumulate_sound (days : list (K * Counts)) : forall t c,
  0 <= c <= t -> Forall sound_bucket days ->
  Forall (fun p => t < pp_total p /\ c <= pp_completed p <= pp_total p /\
                   0 <= pp_completionRate p <= 100)
         (cumulate fl t c days).
Proof.
  induction days as [| d days IH]; intros t c Hc Hdays; cbn [cumulate];
    [constructor |].
  apply Forall_cons in Hdays as [[Hd1 Hd2] Hdays].
  constructor.
  - cbn [pp_total pp_completed pp_completionRate].
    split; [lia |]. split; [lia |].
    apply (completionRate_bounds fl Hfl). lia.
  - eapply Forall_impl; [apply IH; [lia | assumption] |].
    cbn beta. intros p (Hp1 & Hp2 & Hp3). repeat split; lia.
Qed.

Lemma cumulate_increasing (days : list (K * Counts)) : forall t c,
  0 <= c <= t -> Forall sound_bucket days ->
  StronglySorted
    (fun p q => pp_total p < pp_total q /\ pp_completed p <= pp_completed q)
    (cumulate fl t c days).
Proof.
  induction days as [| d days IH]; intros t c Hc Hdays; cbn [cumulate];
    [constructor |].
  apply Forall_cons in Hdays as [[Hd1 Hd2] Hdays].
  constructor.
  - apply IH; [lia | assumption].
  - eapply Forall_impl; [apply cumulate_sound; [| eassumption]; lia |].
    cbn beta. intros p (Hp1 & Hp2 & _).
    cbn [pp_total pp_completed]. lia.
Qed.

(** X11: every progress point counts at least one goal, has
    [0 <= completed <= total] and a completion rate between 0 and 100;
    from one point to any later one [total] strictly grows and
    [completed] does not shrink. *)
Theorem cumulativeProgress_points uid start goals :
  let points := cumulativeProgress fl dateToString keyLe uid start goals in
  Forall (fun p => 1 <= pp_total p /\ 0 <= pp_completed p <= pp_total p /\
                   0 <= pp_completionRate p <= 100) points /\
  StronglySorted
    (fun p q => pp_total p < pp_total q /\ pp_completed p <= pp_completed q)
    points.
Proof.
  cbn zeta. unfold cumulativeProgress. split.
  - eapply Forall_impl;
      [apply cumulate_sound; [| apply progressData_buckets]; lia |].
    cbn beta. intros p (Hp1 & Hp2 & Hp3). repeat split; lia.
  - apply cumulate_increasing; [lia | apply progressData_buckets].
Qed.

(** X12: the progress points carry pairwise different dates, and a
    date has a point exactly when the user created a goal on it within the
    window. *)
Theorem cumulativeProgress_dates uid start goals :
  let points := cumulativeProgress fl dateToString keyLe uid start goals in
  NoDup (map pp_date points) /\
  (forall k,
     k ∈ map pp_date points <->
     exists g, g ∈ goals /\ userId g = uid /\ start <= createdAt g /\
               dateToString (createdAt g) = k).
Proof.
  cbn zeta. unfold cumulativeProgress. rewrite cumulate_dates.
  unfold progressData.
  set (m := group (fun g => dateToString (createdAt g))
                  (inWindow uid start goals)).
  assert (map fst (merge_sort (bucketLe keyLe) (map_to_list m)) ≡ₚ
          (map_to_list m).*1) as Hperm.
  { change (map fst) with (fmap (M := list) (@fst K Counts)).
    now rewrite merge_sort_Permutation. }
  split.
  - rewrite Hperm. apply NoDup_fst_map_to_list.
  - intros k. rewrite Hperm, list_elem_of_fmap. split.
    + intros ([k' c] & -> & Hin). apply elem_of_map_to_list in Hin.
      apply group_lookup_Some in Hin as (_ & _ & g & Hg & Hk).
      apply list_elem_of_filter in Hg as [[Hu Hs] Hg]. eauto 6.
    + intros (g & Hg & Hu & Hs & Hk).
      destruct (proj2 (group_lookup_is_Some
                         (fun g => dateToString (createdAt g))
                         (inWindow uid start goals) k)) as [c Hc].
      { exists g. split; [| exact Hk]. now apply list_elem_of_filter. }
      exists (k, c). split; [reflexivity | now apply elem_of_map_to_list].
Qed.

End Progress.

Lemma cumulativeProgress_points_witness :
  Forall (fun p => 1 <= pp_total p /\ 0 <= pp_completed p <= pp_total p /\
                   0 <= pp_completionRate p <= 100)
    (cumulativeProgress (fun x => x) utcDay Z.le "u1" Calendar.msPerDay
       progressExample).
Proof.
  apply (cumulativeProgress_points (fun x => x) exact_arithmetic_faithful
           utcDay Z.le "u1" Calendar.msPerDay progressExample).
Defined.

(** *** Achievements *)

Section Achievements.
Variable fl : Q -> Q.
Hypothesis Hfl : faithful_rounding fl.

Lemma fl_between lo hi x :
  representable lo -> representable hi ->
  (lo <= x <= hi)%Q -> (lo <= fl x <= hi)%Q.
Proof.
  intros (m1 & k1 & Hm1 & Hk1 & E1) (m2 & k2 & Hm2 & Hk2 & E2) [Hlo Hhi].
  pose proof (fl_representable fl Hfl lo m1 k1 Hm1 Hk1 E1) as Flo.
  pose proof (fl_representable fl Hfl hi m2 k2 Hm2 Hk2 E2) as Fhi.
  pose proof (fl_monotone fl Hfl _ _ Hlo).
  pose proof (fl_monotone fl Hfl _ _ Hhi).
  split; lra.
Qed.

Lemma representable_dyadic m k :
  Z.abs m < 2 ^ 53 -> 0 <= k <= 1022 ->
  representable (inject_Z m / inject_Z (2 ^ k)).
Proof. intros Hm Hk. exists m, k. repeat split; try lia. Qed.

(** A rate is pinned down by representable bounds on the quotient and on
    the product that round to the same integer. *)
Lemma rate_between (q lo1 hi1 lo2 hi2 : Q) n :
  representable lo1 -> representable hi1 ->
  representable lo2 -> representable hi2 ->
  (lo1 <= q <= hi1)%Q ->
  (lo2 <= lo1 * 100)%Q -> (hi1 * 100 <= hi2)%Q ->
  Math_round lo2 = n -> Math_round hi2 = n ->
  Math_round (fl (fl q * 100)) = n.
Proof.
  intros R1 R2 R3 R4 Hq Hlo Hhi <- Hn.
  pose proof (fl_between lo1 hi1 q R1 R2 Hq) as [Hq1 Hq2].
  assert (lo2 <= fl q * 100 <= hi2)%Q as Hp by (split; lra).
  pose proof (fl_between lo2 hi2 _ R3 R4 Hp) as [Hp1 Hp2].
  pose proof (Math_round_mono _ _ Hp1). pose proof (Math_round_mono _ _ Hp2).
  lia.
Qed.

Lemma percent_of_six u :
  0 <= u <= 4 ->
  Math_round (multiply fl (divide fl (inject_Z u) (inject_Z 6)) 100) =
  nth (Z.to_nat u) [0; 17; 33; 50; 67] 0.
Proof.
  intros Hu. unfold multiply, divide.
  assert (u = 0 \/ u = 1 \/ u = 2 \/ u = 3 \/ u = 4)
    as [-> | [-> | [-> | [-> | ->]]]] by lia; cbn [Z.to_nat nth Pos.to_nat].
  - apply (rate_between _ 0 0 0 0);
      try (apply (representable_dyadic 0 0); lia);
      try reflexivity; try (split; vm_compute; discriminate);
      vm_compute; discriminate.
  - apply (rate_between _ (inject_Z 169 / inject_Z (2 ^ 10))
             (inject_Z 43 / inject_Z (2 ^ 8))
             (inject_Z 33 / inject_Z (2 ^ 1))
             (inject_Z 69 / inject_Z (2 ^ 2)));
      try (apply representable_dyadic; lia);
      try reflexivity; try (split; vm_compute; discriminate);
      vm_compute; discriminate.
  - apply (rate_between _ (inject_Z 341 / inject_Z (2 ^ 10))
             (inject_Z 171 / inject_Z (2 ^ 9))
             (inject_Z 33 / inject_Z (2 ^ 0))
             (inject_Z 535 / inject_Z (2 ^ 4)));
      try (apply representable_dyadic; lia);
      try reflexivity; try (split; vm_compute; discriminate);
      vm_compute; discriminate.
  - apply (rate_between _ (inject_Z 1 / inject_Z (2 ^ 1))
             (inject_Z 1 / inject_Z (2 ^ 1))
             (inject_Z 50 / inject_Z (2 ^ 0))
             (inject_Z 50 / inject_Z (2 ^ 0)));
      try (apply representable_dyadic; lia);
      try reflexivity; try (split; vm_compute; discriminate);
      vm_compute; discriminate.
  - apply (rate_between _ (inject_Z 341 / inject_Z (2 ^ 9))
             (inject_Z 683 / inject_Z (2 ^ 10))
             (inject_Z 133 / inject_Z (2 ^ 1))
             (inject_Z 67 / inject_Z (2 ^ 0)));
      try (apply representable_dyadic; lia);
      try reflexivity; try (split; vm_compute; discriminate);
      vm_compute; discriminate.
Qed.

(** X13: of the six achievements, [perfect_week] and [streak_7]
    are never unlocked, so at most four are and the reported percentage is
    one of 0, 17, 33, 50 and 67, fixed by the number unlocked; [first_goal]
    and [ten_goals] are unlocked exactly when the user has at least 1 and
    10 goals, [first_completion] and [ten_completions] exactly when at
    least 1 and 10 of them are completed; hence a completion achievement
    is never unlocked without the corresponding creation achievement. *)
Theorem achievements_unlocking now uid goals :
  let l := (getAchievements fl now uid goals).1 in
  let summary := (getAchievements fl now uid goals).2 in
  let mine := matchUser uid goals in
  (as_total summary = 6 /\ 0 <= as_unlocked summary <= 4 /\
   as_percentage summary =
     nth (Z.to_nat (as_unlocked summary)) [0; 17; 33; 50; 67] 0) /\
  (isUnlocked l "perfect_week" = false /\ isUnlocked l "streak_7" = false) /\
  ((isUnlocked l "first_goal" = true <-> 1 <= Z.of_nat (length mine)) /\
   (isUnlocked l "ten_goals" = true <-> 10 <= Z.of_nat (length mine)) /\
   (isUnlocked l "first_completion" = true <-> 1 <= completedIn mine) /\
   (isUnlocked l "ten_completions" = true <-> 10 <= completedIn mine)) /\
  ((isUnlocked l "first_completion" = true ->
    isUnlocked l "first_goal" = true) /\
   (isUnlocked l "ten_completions" = true ->
    isUnlocked l "ten_goals" = true)).
Proof.
  cbn zeta. unfold getAchievements. cbn [fst snd].
  rewrite getStatsByUser_value.
  pose proof (completedIn_bounds (matchUser uid goals)) as Hb.
  generalize dependent (completedIn (matchUser uid goals)).
  generalize (Z.of_nat (length (matchUser uid goals))).
  intros T C HC.
  unfold achievements, achievementSummary, isUnlocked.
  cbn [us_total us_completed existsb id unlocked String.eqb Ascii.eqb
       Bool.eqb andb orb List.filter length as_total as_unlocked
       as_percentage].
  rewrite !Z.geb_leb.
  destruct (Z.leb_spec 1 T), (Z.leb_spec 10 T), (Z.leb_spec 1 C),
    (Z.leb_spec 10 C); try lia;
    cbn [List.filter unlocked length andb orb];
    (split; [split; [reflexivity | split; [lia |]];
             apply percent_of_six; lia |]);
    repeat split; intros; try lia; try discriminate; try reflexivity.
Qed.

End Achievements.

Lemma achievements_unlocking_witness :
  as_percentage (getAchievements (fun x => x) 1000 "u1" oneOfEight).2 = 33.
Proof.
  pose proof (achievements_unlocking (fun x => x) exact_arithmetic_faithful
                1000 "u1" oneOfEight) as ((_ & _ & Hp) & _).
  exact Hp.
Defined.

End StatsMore.

(** ** The dashboard summary and unset completion flags *)

Module DashboardFacts.
Import Number Stats Dashboard.

Lemma stored_count_nonneg q goals : 0 <= Dashboard.countDocuments q goals.
Proof. unfold Dashboard.countDocuments. lia. Qed.

Lemma stored_count_le (q r : Stored -> bool) goals :
  (forall g, q g = true -> r g = true) ->
  Dashboard.countDocuments q goals <= Dashboard.countDocuments r goals.
Proof.
  intros Hqr. unfold Dashboard.countDocuments.
  induction goals as [| g goals IH]; [reflexivity |].
  cbn [List.filter]. specialize (Hqr g).
  destruct (q g); [rewrite Hqr by reflexivity |]; [| destruct (r g)];
    cbn [length]; lia.
Qed.

(** A goal of the user is counted as completed, as active, or has no
    flag. *)
Lemma stored_count_by_flag uid goals :
  Dashboard.countDocuments (fun g => bool_decide (s_userId g = uid)) goals =
  Dashboard.countDocuments
    (fun g => bool_decide (s_userId g = uid) && flagIs true g) goals +
  Dashboard.countDocuments
    (fun g => bool_decide (s_userId g = uid) && flagIs false g) goals +
  Z.of_nat (length (unflagged uid goals)).
Proof.
  unfold Dashboard.countDocuments, unflagged.
  induction goals as [| g goals IH]; [reflexivity |].
  cbn [List.filter]. rewrite filter_cons.
  assert (forall b, flagIs b g =
            match s_completed g with Some c => Bool.eqb c b | None => false end)
    as Hflag by reflexivity.
  rewrite !Hflag. clear Hflag.
  destruct (decide (s_userId g = uid)) as [Hu | Hu].
  - rewrite bool_decide_eq_true_2 by exact Hu.
    destruct (s_completed g) as [[|] |] eqn:Hflag; cbn [andb Bool.eqb].
    + rewrite decide_False by (intros [_ ?]; discriminate).
      cbn [length]. lia.
    + rewrite decide_False by (intros [_ ?]; discriminate).
      cbn [length]. lia.
    + rewrite decide_True by done. cbn [length]. lia.
  - rewrite bool_decide_eq_false_2 by exact Hu. cbn [andb].
    rewrite decide_False by (intros [? _]; done). exact IH.
Qed.

Lemma unflagged_none uid goals :
  Forall (fun g => s_userId g = uid -> is_Some (s_completed g)) goals ->
  unflagged uid goals = [].
Proof.
  intros Hall. unfold unflagged.
  induction Hall as [| g goals Hg _ IH]; [reflexivity |].
  rewrite filter_cons, decide_False; [exact IH |].
  intros [Hu Hnone]. destruct (Hg Hu) as [b Hb]. congruence.
Qed.

Lemma dashboardSummary_stored fl now uid goals :
  Dashboard.dashboardSummary fl now uid (map stored goals) =
  Stats.dashboardSummary fl now uid goals.
Proof.
  assert (forall (q : Stored -> bool) (r : Goal -> bool),
            (forall g, q (stored g) = r g) ->
            Dashboard.countDocuments q (map stored goals) =
            Stats.countDocuments r goals) as Hcount.
  { intros q r Hqr. unfold Dashboard.countDocuments, Stats.countDocuments.
    do 2 f_equal.
    induction goals as [| g goals IH]; [reflexivity |].
    cbn [map List.filter]. rewrite Hqr.
    destruct (r g); cbn [length]; now rewrite IH. }
  unfold Dashboard.dashboardSummary, Stats.dashboardSummary.
  rewrite (Hcount _ (fun g => bool_decide (userId g = uid)))
    by reflexivity.
  rewrite (Hcount _ (fun g => bool_decide (userId g = uid) && completed g))
    by (intros g; unfold flagIs; cbn; now destruct (completed g)).
  rewrite (Hcount _ (fun g => bool_decide (userId g = uid)
                              && negb (completed g)))
    by (intros g; unfold flagIs; cbn; now destruct (completed g)).
  rewrite (Hcount _ (fun g => bool_decide (userId g = uid)
                              && negb (completed g) && (deadline g <? now)))
    by (intros g; unfold flagIs; cbn; now destruct (completed g)).
  reflexivity.
Qed.

(** X7: the dashboard summary makes separate counts.  The total is
    the completed goals plus the active goals plus the user's goals whose
    stored flag is [null], which neither [completed: true] nor
    [completed: false] matches; so [completed + active <= total], with
    equality when every goal of the user has a boolean flag, and
    [0 <= overdue <= active].  One goal stored with [completed: null] gives
    total 1, completed 0, active 0.  Over documents whose flags are all
    booleans the summary is [Stats.dashboardSummary]. *)
Theorem dashboardSummary_counts fl now uid goals :
  let s := Dashboard.dashboardSummary fl now uid goals in
  sm_total s =
    sm_completed s + sm_active s + Z.of_nat (length (unflagged uid goals)) /\
  0 <= sm_completed s /\ 0 <= sm_active s /\
  sm_completed s + sm_active s <= sm_total s /\
  0 <= sm_overdue s <= sm_active s /\
  (Forall (fun g => s_userId g = uid -> is_Some (s_completed g)) goals ->
   sm_total s = sm_completed s + sm_active s) /\
  (forall d,
     let one := Dashboard.dashboardSummary fl now uid [mkStored uid None d] in
     sm_total one = 1 /\ sm_completed one = 0 /\ sm_active one = 0) /\
  (forall docs,
     Dashboard.dashboardSummary fl now uid (map stored docs) =
     Stats.dashboardSummary fl now uid docs).
Proof.
  cbn zeta.
  pose proof (stored_count_by_flag uid goals) as Hsplit.
  change (Dashboard.countDocuments
            (fun g => bool_decide (s_userId g = uid)) goals)
    with (sm_total (Dashboard.dashboardSummary fl now uid goals)) in Hsplit.
  change (Dashboard.countDocuments
            (fun g => bool_decide (s_userId g = uid) && flagIs true g) goals)
    with (sm_completed (Dashboard.dashboardSummary fl now uid goals))
    in Hsplit.
  change (Dashboard.countDocuments
            (fun g => bool_decide (s_userId g = uid) && flagIs false g) goals)
    with (sm_active (Dashboard.dashboardSummary fl now uid goals)) in Hsplit.
  assert (0 <= sm_completed (Dashboard.dashboardSummary fl now uid goals))
    as Hcompleted by apply stored_count_nonneg.
  assert (0 <= sm_active (Dashboard.dashboardSummary fl now uid goals))
    as Hactive by apply stored_count_nonneg.
  assert (0 <= sm_overdue (Dashboard.dashboardSummary fl now uid goals)
          <= sm_active (Dashboard.dashboardSummary fl now uid goals))
    as Hoverdue.
  { split; [apply stored_count_nonneg |].
    apply stored_count_le. intros g Hg.
    now apply andb_prop in Hg as [-> _]. }
  split; [exact Hsplit |].
  split; [exact Hcompleted |]. split; [exact Hactive |].
  split; [lia |]. split; [exact Hoverdue |].
  split.
  { intros Hall. rewrite (unflagged_none uid goals Hall) in Hsplit.
    cbn [length] in Hsplit. lia. }
  split.
  - intros d. unfold Dashboard.dashboardSummary, Dashboard.countDocuments.
    cbn [sm_total sm_completed sm_active List.filter s_userId].
    rewrite bool_decide_eq_true_2 by reflexivity. cbn. auto.
  - intros docs. apply dashboardSummary_stored.
Qed.

End DashboardFacts.

(** ** More on streak updates *)

Module StreakMore.
Import Calendar CalendarFacts Streak StreakFacts.

Section WithTimeZone.
Variable tz : Z.

Local Abbreviation today := (setHours0 tz).

Lemma recordAll_cons now nows s :
  recordAll tz (now :: nows) s = recordAll tz nows (streakAfter tz now s).
Proof. reflexivity. Qed.

Lemma recordAll_snoc nows now s :
  recordAll tz (nows ++ [now]) s = streakAfter tz now (recordAll tz nows s).
Proof. unfold recordAll. now rewrite fold_left_app. Qed.

Lemma consecutiveDays_succ first n :
  consecutiveDays first (S n) = first :: consecutiveDays (first + msPerDay) n.
Proof.
  unfold consecutiveDays. cbn [seq map]. f_equal; [lia |].
  rewrite <- seq_shift, map_map. apply map_ext. intros i. lia.
Qed.

Lemma daysDiff_next_day now :
  daysDiff tz (now + msPerDay) (today now) = 1.
Proof.
  rewrite daysDiff_truncated.
  replace (now + msPerDay) with (now + 1 * msPerDay) by lia.
  apply daysDiff_add_days.
Qed.

(** A run of consecutive days that continues a stored date. *)
Lemma recordAll_continue n : forall s last first,
  lastActiveDate s = Some last ->
  daysDiff tz first last = 1 ->
  recordAll tz (consecutiveDays first (S n)) s =
  mkStreak (current s + Z.of_nat (S n))
           (Z.max (longest s) (current s + Z.of_nat (S n)))
           (Some (today (first + Z.of_nat n * msPerDay))).
Proof.
  induction n as [| n IH]; intros s last first Hlast Hdiff;
    rewrite consecutiveDays_succ, recordAll_cons,
      (streakAfter_next_day tz first last s Hlast Hdiff).
  - change (consecutiveDays (first + msPerDay) 0) with (@nil Z).
    unfold recordAll. cbn [fold_left].
    replace (first + Z.of_nat 0 * msPerDay) with first by lia.
    reflexivity.
  - rewrite (IH _ (today first) (first + msPerDay));
      [| reflexivity | apply daysDiff_next_day].
    cbn [current longest].
    replace (first + msPerDay + Z.of_nat n * msPerDay)
      with (first + Z.of_nat (S n) * msPerDay) by lia.
    f_equal; lia.
Qed.

(** With a fixed offset: updates at [n >= 1] readings 24 hours apart,
    starting from a document without [lastActiveDate], leave
    [current = longest = n]; starting with [daysDiff = 1] to the stored date
    they add [n] to [current] and raise [longest] to the new [current] if
    that is larger. *)
Lemma consecutive_days_streak s first n
  (Hn : (0 < n)%nat) :
  (lastActiveDate s = None ->
   current (recordAll tz (consecutiveDays first n) s) = Z.of_nat n /\
   longest (recordAll tz (consecutiveDays first n) s) = Z.of_nat n) /\
  (forall last,
     lastActiveDate s = Some last -> daysDiff tz first last = 1 ->
     current (recordAll tz (consecutiveDays first n) s) =
       current s + Z.of_nat n /\
     longest (recordAll tz (consecutiveDays first n) s) =
       Z.max (longest s) (current s + Z.of_nat n)).
Proof.
  destruct n as [| n]; [lia |]. split.
  - intros Hfresh. destruct n as [| n].
    + unfold consecutiveDays. cbn [seq map]. rewrite recordAll_cons.
      rewrite (streakAfter_first tz _ s Hfresh). cbn. auto.
    + rewrite consecutiveDays_succ, recordAll_cons,
        (streakAfter_first tz first s Hfresh).
      rewrite (recordAll_continue n _ (today first) (first + msPerDay));
        [| reflexivity | apply daysDiff_next_day].
      cbn [current longest]. lia.
  - intros last Hlast Hdiff.
    rewrite (recordAll_continue n s last first Hlast Hdiff).
    cbn [current longest]. auto.
Qed.

Lemma maxCurrent_head nows s : current s <= maxCurrent (trace tz nows s).
Proof. destruct nows; cbn; lia. Qed.

Lemma maxCurrent_cons s l :
  maxCurrent (s :: l) = Z.max (current s) (maxCurrent l).
Proof. reflexivity. Qed.

Lemma longest_max_from nows : forall s,
  streak_inv s -> (lastActiveDate s = None -> longest s <= 1) ->
  longest (recordAll tz nows s) =
  Z.max (longest s) (maxCurrent (trace tz nows s)).
Proof.
  induction nows as [| now rest IH]; intros s Hinv Hnone.
  - destruct Hinv as [Hle _]. cbn. lia.
  - rewrite recordAll_cons. cbn [trace stateOf updateStreak].
    rewrite maxCurrent_cons.
    rewrite IH;
      [| now apply streak_inv_step
       | rewrite streakAfter_lastActiveDate; discriminate].
    pose proof (maxCurrent_head rest (streakAfter tz now s)) as Hhead.
    destruct Hinv as [Hle Hone].
    destruct (lastActiveDate s) as [last |] eqn:Hlast.
    + assert (1 <= longest s) by (apply Hone; eauto).
      destruct (streakAfter_cases tz now last s Hlast) as [E | [E | E]];
        rewrite E in *; cbn [current longest] in *; lia.
    + specialize (Hnone eq_refl).
      rewrite (streakAfter_first tz now s Hlast) in *.
      cbn [current longest] in *. lia.
Qed.

(** X2: after any sequence of updates from the schema defaults,
    [longest] is the largest value [current] has had along the way. *)
Theorem longest_is_max_current nows :
  longest (recordAll tz nows initial) = maxCurrent (trace tz nows initial).
Proof.
  rewrite longest_max_from;
    [| apply streak_inv_initial | cbn; lia].
  pose proof (maxCurrent_head nows initial). cbn [longest initial current] in *.
  lia.
Qed.

Lemma longest_le_updates nows : forall s n,
  streak_inv s -> longest s <= n ->
  (lastActiveDate s = None -> longest s <= 1) ->
  longest (recordAll tz nows s) <= Z.max 1 (n + Z.of_nat (length nows)).
Proof.
  induction nows as [| now rest IH]; intros s n Hinv Hn Hnone.
  - cbn. lia.
  - rewrite recordAll_cons.
    assert (longest (streakAfter tz now s) <= Z.max 1 (n + 1)) as Hstep.
    { destruct Hinv as [Hle Hone].
      destruct (lastActiveDate s) as [last |] eqn:Hlast.
      - destruct (streakAfter_cases tz now last s Hlast) as [E | [E | E]];
          rewrite E; cbn [longest]; lia.
      - rewrite (streakAfter_first tz now s Hlast). cbn [longest]. lia. }
    pose proof (IH (streakAfter tz now s) (Z.max 1 (n + 1))
                  (streak_inv_step tz now s Hinv) Hstep) as Hrec.
    destruct Hinv as [Hle _]. cbn [length].
    assert (lastActiveDate (streakAfter tz now s) = None ->
            longest (streakAfter tz now s) <= 1) as Hsome
      by (rewrite streakAfter_lastActiveDate; discriminate).
    specialize (Hrec Hsome). lia.
Qed.

Lemma recordAll_inv nows : forall s,
  streak_inv s -> streak_inv (recordAll tz nows s).
Proof.
  induction nows as [| n rest IH]; intros s Hs; [exact Hs |].
  rewrite recordAll_cons. apply IH. now apply streak_inv_step.
Qed.

(** A document with a stored date has counted at least one day. *)
Lemma recordAll_counted nows : forall s,
  (is_Some (lastActiveDate s) -> 1 <= current s) ->
  is_Some (lastActiveDate (recordAll tz nows s)) ->
  1 <= current (recordAll tz nows s).
Proof.
  induction nows as [| now rest IH]; intros s Hs; [exact Hs |].
  rewrite recordAll_cons. apply IH. intros _.
  destruct (lastActiveDate s) as [last |] eqn:Hlast.
  - assert (1 <= current s) by (apply Hs; eauto).
    destruct (streakAfter_cases tz now last s Hlast) as [E | [E | E]];
      rewrite E; cbn [current]; lia.
  - rewrite (streakAfter_first tz now s Hlast). cbn. lia.
Qed.

(** X3: after at least one update from the schema defaults,
    [1 <= current <= longest], [longest] is at most the number of updates
    made, and [lastActiveDate] is the local midnight of the day of the
    last update. *)
Theorem after_updates nows now :
  let s := recordAll tz (nows ++ [now]) initial in
  1 <= current s <= longest s /\
  longest s <= Z.of_nat (length (nows ++ [now])) /\
  lastActiveDate s = Some (today now) /\
  (today now + tz) mod msPerDay = 0.
Proof.
  cbn zeta.
  assert (lastActiveDate (recordAll tz (nows ++ [now]) initial) =
          Some (today now)) as Hlast
    by (rewrite recordAll_snoc; apply streakAfter_lastActiveDate).
  pose proof (recordAll_inv (nows ++ [now]) initial streak_inv_initial)
    as [Hle _].
  pose proof (recordAll_counted (nows ++ [now]) initial) as Hone.
  pose proof (longest_le_updates (nows ++ [now]) initial 0
                streak_inv_initial) as Hlen.
  cbn [longest initial lastActiveDate] in Hone, Hlen.
  rewrite length_app in *. cbn [length] in *.
  split; [| split; [| split]].
  - split; [| lia]. apply Hone; [intros [d Hd]; discriminate |].
    rewrite Hlast. eauto.
  - specialize (Hlen ltac:(lia) ltac:(lia)). lia.
  - exact Hlast.
  - apply setHours0_local_midnight.
Qed.

End WithTimeZone.

End StreakMore.

(** ** Streak updates in the host's time zone *)

Module HostZoneFacts.
Import Calendar CalendarFacts Streak.

(** *** Zones with a fixed offset *)

Lemma setHours0_fixedOffset tz t :
  HostZone.setHours0 (HostZone.fixedOffset tz) t = Calendar.setHours0 tz t.
Proof.
  unfold HostZone.setHours0, HostZone.UTC, HostZone.MakeDate, HostZone.Day,
    HostZone.LocalTime, HostZone.fixedOffset, Calendar.setHours0.
  cbn [HostZone.offsetAt HostZone.offsetOfLocal].
  pose proof msPerDay_pos as Hpos.
  rewrite (Zmod_eq_full (t + tz) msPerDay) by lia. lia.
Qed.

Lemma daysDiff_fixedOffset tz now last :
  HostZone.daysDiff (HostZone.fixedOffset tz) now last =
  Streak.daysDiff tz now last.
Proof.
  unfold HostZone.daysDiff, Streak.daysDiff.
  now rewrite !setHours0_fixedOffset.
Qed.

Lemma streakAfter_fixedOffset tz now s :
  HostZone.streakAfter (HostZone.fixedOffset tz) now s =
  Streak.streakAfter tz now s.
Proof.
  unfold HostZone.streakAfter, Streak.streakAfter.
  rewrite setHours0_fixedOffset.
  destruct (lastActiveDate s) as [last |]; [| reflexivity].
  now rewrite setHours0_fixedOffset.
Qed.

Lemma recordAll_fixedOffset tz nows : forall s,
  HostZone.recordAll (HostZone.fixedOffset tz) nows s =
  Streak.recordAll tz nows s.
Proof.
  induction nows as [| now rest IH]; intros s; [reflexivity |].
  change (HostZone.recordAll (HostZone.fixedOffset tz) (now :: rest) s)
    with (HostZone.recordAll (HostZone.fixedOffset tz) rest
            (HostZone.streakAfter (HostZone.fixedOffset tz) now s)).
  rewrite streakAfter_fixedOffset, IH. reflexivity.
Qed.

(** *** Any zone: the branch taken, by the hours between the two local
    midnights *)

Section InZone.
Variable z : HostZone.Zone.

Local Abbreviation today := (HostZone.setHours0 z).

Lemma streakAfter_first_activity now s :
  lastActiveDate s = None ->
  HostZone.streakAfter z now s = mkStreak 1 1 (Some (today now)).
Proof. intros Hnone. unfold HostZone.streakAfter. rewrite Hnone. reflexivity. Qed.

Lemma streakAfter_by_daysDiff now last s :
  lastActiveDate s = Some last ->
  HostZone.streakAfter z now s =
  if HostZone.daysDiff z now last =? 1
  then mkStreak (current s + 1) (Z.max (longest s) (current s + 1))
                (Some (today now))
  else if HostZone.daysDiff z now last >? 1
  then mkStreak 1 (longest s) (Some (today now))
  else mkStreak (current s) (longest s) (Some (today now)).
Proof.
  intros Hlast. unfold HostZone.streakAfter, HostZone.daysDiff.
  rewrite Hlast. cbn zeta.
  destruct (_ =? 1); [| destruct (_ >? 1); reflexivity].
  unfold set_longest, set_current, set_lastActiveDate.
  cbn [current longest lastActiveDate].
  destruct (Z.gtb_spec (current s + 1) (longest s));
    cbn [current longest lastActiveDate].
  - rewrite Z.max_r by lia. reflexivity.
  - rewrite Z.max_l by lia. reflexivity.
Qed.

Lemma daysDiff_by_hours now last :
  let gap := today now - today last in
  (gap < msPerDay -> HostZone.daysDiff z now last <= 0) /\
  (msPerDay <= gap < 2 * msPerDay -> HostZone.daysDiff z now last = 1) /\
  (2 * msPerDay <= gap -> 1 < HostZone.daysDiff z now last).
Proof.
  cbn zeta. unfold HostZone.daysDiff.
  pose proof msPerDay_pos as Hpos.
  set (gap := today now - today last).
  split; [| split]; intros Hgap.
  - assert (gap / msPerDay < 1) by (apply Z.div_lt_upper_bound; lia). lia.
  - symmetry. apply (Z.div_unique gap msPerDay 1 (gap - msPerDay)); lia.
  - assert (2 <= gap / msPerDay) by (apply Z.div_le_lower_bound; lia). lia.
Qed.

(** X29: in any host zone the update goes by the time between the
    local midnight of the clock reading and the local midnight of the
    stored date, both as [setHours(0, 0, 0, 0)] gives them: under 24 hours
    (or earlier) neither counter changes; from 24 hours to under 48 hours
    [current] grows by one and [longest] follows it; from 48 hours on
    [current] restarts at 1 and [longest] is kept.  [lastActiveDate] becomes
    the local midnight of the clock reading in every case. *)
Theorem updateStreak_by_hours s last now
  (Hlast : lastActiveDate s = Some last) :
  let gap := today now - today last in
  let after := stateOf (HostZone.updateStreak z now s) in
  lastActiveDate after = Some (today now) /\
  (gap < msPerDay ->
   current after = current s /\ longest after = longest s) /\
  (msPerDay <= gap < 2 * msPerDay ->
   current after = current s + 1 /\
   longest after = Z.max (longest s) (current s + 1)) /\
  (2 * msPerDay <= gap ->
   current after = 1 /\ longest after = longest s).
Proof.
  cbn zeta. cbn [stateOf HostZone.updateStreak].
  rewrite (streakAfter_by_daysDiff now last s Hlast).
  pose proof (daysDiff_by_hours now last) as (Hlow & Hone & Hmore).
  cbn zeta in Hlow, Hone, Hmore.
  split; [destruct (_ =? 1); [| destruct (_ >? 1)]; reflexivity |].
  split; [| split]; intros Hgap.
  - specialize (Hlow Hgap).
    destruct (Z.eqb_spec (HostZone.daysDiff z now last) 1); [lia |].
    destruct (Z.gtb_spec (HostZone.daysDiff z now last) 1); [lia |].
    cbn. auto.
  - rewrite (Hone Hgap). cbn. auto.
  - specialize (Hmore Hgap).
    destruct (Z.eqb_spec (HostZone.daysDiff z now last) 1); [lia |].
    destruct (Z.gtb_spec (HostZone.daysDiff z now last) 1); [| lia].
    cbn. auto.
Qed.

End InZone.

(** X28: in a zone whose offset [tz] never changes,
    [setHours(0, 0, 0, 0)] subtracts from the time value its local time of
    day, [(t + tz) mod 86400000], and the update read in that zone is the
    update of [Streak], call by call and over any sequence of calls. *)
Theorem fixedOffset_updates tz now nows s :
  HostZone.setHours0 (HostZone.fixedOffset tz) now =
    now - (now + tz) mod msPerDay /\
  HostZone.updateStreak (HostZone.fixedOffset tz) now s =
    Streak.updateStreak tz now s /\
  HostZone.recordAll (HostZone.fixedOffset tz) nows s =
    Streak.recordAll tz nows s.
Proof.
  split; [apply setHours0_fixedOffset |]. split.
  - unfold HostZone.updateStreak, Streak.updateStreak.
    now rewrite streakAfter_fixedOffset.
  - apply recordAll_fixedOffset.
Qed.

(** X1: in a host zone with a fixed UTC offset (no daylight-saving
    change), updates on [n >= 1] consecutive days, 24 hours apart, starting
    from a document without [lastActiveDate] leave [current = longest = n];
    starting the day after the stored date they add [n] to [current] and
    raise [longest] to the new [current] if that is larger. *)
Theorem consecutive_days_fixed_offset tz s first n
  (Hn : (0 < n)%nat) :
  let z := HostZone.fixedOffset tz in
  (lastActiveDate s = None ->
   current (HostZone.recordAll z (consecutiveDays first n) s) = Z.of_nat n /\
   longest (HostZone.recordAll z (consecutiveDays first n) s) = Z.of_nat n) /\
  (forall last,
     lastActiveDate s = Some last -> HostZone.daysDiff z first last = 1 ->
     current (HostZone.recordAll z (consecutiveDays first n) s) =
       current s + Z.of_nat n /\
     longest (HostZone.recordAll z (consecutiveDays first n) s) =
       Z.max (longest s) (current s + Z.of_nat n)).
Proof.
  cbn zeta. rewrite recordAll_fixedOffset.
  pose proof (StreakMore.consecutive_days_streak tz s first n Hn)
    as [Hfresh Hnext].
  split; [exact Hfresh |].
  intros last Hlast Hdiff. rewrite daysDiff_fixedOffset in Hdiff.
  now apply (Hnext last).
Qed.

Lemma consecutive_days_fixed_offset_witness :
  current (HostZone.recordAll (HostZone.fixedOffset 0)
             (consecutiveDays (day 10) 30) initial) = 30 /\
  longest (HostZone.recordAll (HostZone.fixedOffset 0)
             (consecutiveDays (day 10) 30) initial) = 30.
Proof.
  apply (consecutive_days_fixed_offset 0 initial (day 10) 30);
    [lia | reflexivity].
Defined.

(** *** America/New_York across the change of 2024-03-10 *)

(** The local midnights of 9, 10 and 11 March 2024 are 05:00, 05:00 and
    04:00 UTC: 24 and 23 hours apart. *)
Lemma newYork_midnights :
  map (HostZone.setHours0 HostZone.newYork2024)
      [HostZone.dateUTC 2024 3 9 17; HostZone.dateUTC 2024 3 10 16;
       HostZone.dateUTC 2024 3 11 16] =
  [HostZone.dateUTC 2024 3 9 5; HostZone.dateUTC 2024 3 10 5;
   HostZone.dateUTC 2024 3 11 4].
Proof. vm_compute. reflexivity. Qed.

(** C5 (where the code departs from the claim): the host is in
    America/New_York, the document holds current = 5, longest = 5 and
    lastActiveDate = the local midnight of 2024-03-09, and the update runs
    at noon local time on 2024-03-11, two calendar days later.  The two
    local midnights are 47 hours apart, the code's [daysDiff] is
    [floor(47 / 24) = 1], and the update continues the streak: it returns
    current = 6 and longest = 6, not current = 1 and longest = 5. *)
Theorem updateStreak_two_day_gap_across_dst :
  let z := HostZone.newYork2024 in
  let last := HostZone.dateUTC 2024 3 9 5 in
  let now := HostZone.dateUTC 2024 3 11 16 in
  HostZone.setHours0 z last = last /\
  HostZone.localDay z last = HostZone.daysFromCivil 2024 3 9 /\
  HostZone.localDay z now = HostZone.daysFromCivil 2024 3 11 /\
  HostZone.setHours0 z now - HostZone.setHours0 z last =
    47 * HostZone.msPerHour /\
  HostZone.daysDiff z now last = 1 /\
  HostZone.updateStreak z now (mkStreak 5 5 (Some last)) =
    Returned (mkStreak 6 6 (Some (HostZone.dateUTC 2024 3 11 4))) /\
  HostZone.updateStreak z now (mkStreak 5 5 (Some last)) <>
    Returned (mkStreak 1 5 (Some (HostZone.setHours0 z now))).
Proof.
  cbn zeta. repeat split; try (vm_compute; reflexivity).
  vm_compute. discriminate.
Qed.

(** C6 (where the code departs from the claim): the host is in
    America/New_York and a new document (no [lastActiveDate]) is updated at
    noon local time on 9, 10 and 11 March 2024, three consecutive calendar
    days.  The local midnights of the last two are 23 hours apart, the
    code's [daysDiff] for the third update is 0, and the document ends with
    current = 2 and longest = 2, not 3 and 3. *)
Theorem updateStreak_three_days_across_dst :
  let z := HostZone.newYork2024 in
  let nows := [HostZone.dateUTC 2024 3 9 17; HostZone.dateUTC 2024 3 10 16;
               HostZone.dateUTC 2024 3 11 16] in
  map (HostZone.localDay z) nows =
    [HostZone.daysFromCivil 2024 3 9; HostZone.daysFromCivil 2024 3 10;
     HostZone.daysFromCivil 2024 3 11] /\
  HostZone.daysDiff z (HostZone.dateUTC 2024 3 10 16)
                      (HostZone.dateUTC 2024 3 9 17) = 1 /\
  HostZone.daysDiff z (HostZone.dateUTC 2024 3 11 16)
                      (HostZone.dateUTC 2024 3 10 16) = 0 /\
  HostZone.recordAll z nows initial =
    mkStreak 2 2 (Some (HostZone.dateUTC 2024 3 11 4)) /\
  current (HostZone.recordAll z nows initial) <> 3 /\
  longest (HostZone.recordAll z nows initial) <> 3.
Proof.
  cbn zeta. repeat split; try (vm_compute; reflexivity);
    vm_compute; discriminate.
Qed.

Lemma updateStreak_by_hours_witness :
  let z := HostZone.newYork2024 in
  let s := mkStreak 5 5 (Some (HostZone.dateUTC 2024 3 9 5)) in
  let after :=
    stateOf (HostZone.updateStreak z (HostZone.dateUTC 2024 3 11 16) s) in
  current after = current s + 1 /\
  longest after = Z.max (longest s) (current s + 1).
Proof.
  cbn zeta.
  pose proof (updateStreak_by_hours HostZone.newYork2024
                (mkStreak 5 5 (Some (HostZone.dateUTC 2024 3 9 5)))
                (HostZone.dateUTC 2024 3 9 5) (HostZone.dateUTC 2024 3 11 16)
                eq_refl) as (_ & _ & H & _).
  apply H. split; vm_compute; [discriminate | reflexivity].
Defined.

End HostZoneFacts.

(** ** Goal documents *)

Module GoalDocumentFacts.
Import Number NumberFacts GoalDocument.

(** What the save middleware does to each field. *)
Lemma preSave_fields now d :
  updatedAt (preSave now d) = now /\
  completed (preSave now d) = completed d /\
  progress (preSave now d) = progress d /\
  deadline (preSave now d) = deadline d /\
  subtasks (preSave now d) = subtasks d.
Proof.
  unfold preSave. destruct d as [[|] [at_ |] p dl u sts]; cbn; auto.
Qed.

Lemma preSave_settles now d : consistent (preSave now d).
Proof.
  unfold consistent, preSave. destruct d as [[|] [at_ |] p dl u sts]; cbn;
    split; intros H; eauto; try discriminate;
    destruct H; discriminate.
Qed.

Lemma preSave_completedAt now d :
  consistent d -> completedAt (preSave now d) = completedAt d.
Proof.
  unfold consistent, preSave.
  destruct d as [[|] [at_ |] p dl u sts]; cbn; intros [H1 H2];
    try reflexivity.
  - destruct (H1 eq_refl). discriminate.
  - discriminate H2. eauto.
Qed.

Lemma preSave_completed now d : completed (preSave now d) = completed d.
Proof. apply preSave_fields. Qed.

Lemma preSave_progress now d : progress (preSave now d) = progress d.
Proof. apply preSave_fields. Qed.

Lemma preSave_subtasks now d : subtasks (preSave now d) = subtasks d.
Proof. apply preSave_fields. Qed.

(** X14: after the save middleware [completedAt] is set exactly when
    the goal is completed; the middleware stamps [updatedAt], changes no
    other field besides [completedAt], and leaves [completedAt] alone when
    it already agreed with [completed]. *)
Theorem preSave_consistent now d :
  consistent (preSave now d) /\
  updatedAt (preSave now d) = now /\
  (completed (preSave now d) = completed d /\
   progress (preSave now d) = progress d /\
   deadline (preSave now d) = deadline d /\
   subtasks (preSave now d) = subtasks d) /\
  (consistent d -> completedAt (preSave now d) = completedAt d).
Proof.
  pose proof (preSave_fields now d) as (Hu & Hrest).
  split; [apply preSave_settles |]. split; [exact Hu |].
  split; [exact Hrest | apply preSave_completedAt].
Qed.

Section WithSchema.
Variable validate : Z -> GoalDoc -> bool.
Variable fl : Q -> Q.

Lemma save_consistent now d :
  consistent d -> consistent (docOf (save validate now d)).
Proof.
  intros Hd. unfold save. destruct (validate now d); [| exact Hd].
  apply preSave_settles.
Qed.

Lemma save_fields now d :
  completed (docOf (save validate now d)) = completed d /\
  progress (docOf (save validate now d)) = progress d /\
  subtasks (docOf (save validate now d)) = subtasks d.
Proof.
  unfold save. destruct (validate now d); cbn [docOf]; [| auto].
  rewrite preSave_completed, preSave_progress, preSave_subtasks. auto.
Qed.

Lemma save_completedAt now d :
  consistent d ->
  completedAt (docOf (save validate now d)) = completedAt d.
Proof.
  intros Hd. unfold save. destruct (validate now d); [| reflexivity].
  now apply preSave_completedAt.
Qed.

(** The number of completed subtasks. *)
Local Abbreviation doneCount l :=
  (Z.of_nat (length (List.filter st_completed l))).

Lemma flip_flip st : flip (flip st) = st.
Proof. destruct st as [i t c a]. unfold flip. cbn. now rewrite negb_involutive. Qed.

Lemma list_find_alter_flip ident (l : list Subtask) : forall i st,
  list_find (fun st => st_id st = ident) l = Some (i, st) ->
  list_find (fun st => st_id st = ident) (alter flip i l) = Some (i, flip st).
Proof.
  induction l as [| x l IH]; intros i st Hfind; [discriminate |].
  cbn in Hfind. destruct (decide (st_id x = ident)) as [Hx | Hx].
  - injection Hfind as <- <-. cbn. rewrite decide_True by exact Hx. reflexivity.
  - destruct (list_find _ l) as [[j y] |] eqn:Hl; [| discriminate].
    injection Hfind as <- <-. cbn.
    rewrite decide_False by exact Hx.
    rewrite (IH j y eq_refl). reflexivity.
Qed.

Lemma doneCount_alter_flip (l : list Subtask) : forall i st,
  l !! i = Some st ->
  doneCount (alter flip i l) =
  doneCount l + (if st_completed st then -1 else 1).
Proof.
  induction l as [| x l IH]; intros i st Hi; [discriminate |].
  destruct i as [| i].
  - injection Hi as ->. cbn. destruct (st_completed st); cbn [negb length]; lia.
  - cbn in Hi. cbn [alter list_alter List.filter].
    change (list_alter flip i l) with (alter flip i l).
    destruct (st_completed x); cbn [length];
      specialize (IH i st Hi); lia.
Qed.

Lemma doneCount_bounds (l : list Subtask) :
  0 <= doneCount l <= Z.of_nat (length l).
Proof. split; [lia |]. apply inj_le, List.filter_length_le. Qed.

(** X15: [markComplete] leaves the document completed, stamped with
    the time of the call and at progress 100; [markIncomplete] leaves it
    not completed, without [completedAt] and at progress 0, so completing
    and then reopening a goal does not bring back the progress it had;
    both hold whether or not the save is accepted. *)
Theorem mark_methods now1 now2 d :
  let c := docOf (markComplete validate now1 d) in
  let i := docOf (markIncomplete validate now2 c) in
  (completed c = true /\ completedAt c = Some now1 /\ progress c = 100%Q) /\
  (completed i = false /\ completedAt i = None /\ progress i = 0%Q) /\
  subtasks i = subtasks d /\ deadline i = deadline d.
Proof.
  cbn zeta. unfold markComplete, markIncomplete, save.
  destruct d as [c at_ p dl u sts]. cbn.
  destruct (validate now1 _); cbn; destruct (validate now2 _); cbn; auto 10.
Qed.

(** X16: [updateProgress] stores the argument clamped to the range
    from 0 to 100; an argument of 100 or more also marks the goal
    completed and stamps [completedAt]; an argument below 100 leaves
    [completed] as it was, so it never reopens a completed goal. *)
Theorem updateProgress_clamps now p d :
  let d' := docOf (updateProgress validate now p d) in
  (0 <= progress d' <= 100)%Q /\
  ((p <= 0)%Q -> (progress d' == 0)%Q) /\
  ((0 <= p <= 100)%Q -> (progress d' == p)%Q) /\
  ((100 <= p)%Q ->
     (progress d' == 100)%Q /\ completed d' = true /\
     is_Some (completedAt d')) /\
  ((p < 100)%Q -> completed d' = completed d) /\
  subtasks d' = subtasks d.
Proof.
  cbn zeta. unfold updateProgress.
  set (q := Qmin 100 (Qmax 0 p)).
  assert ((0 <= q <= 100)%Q /\ ((p <= 0)%Q -> (q == 0)%Q) /\
          ((0 <= p <= 100)%Q -> (q == p)%Q) /\
          ((100 <= p)%Q -> (q == 100)%Q) /\
          ((p < 100)%Q -> ~ (q == 100)%Q)) as (Hq & Hq0 & Hqp & Hq100 & Hqlt).
  { unfold q.
    destruct (Q.max_spec 0 p) as [[H1 E1] | [H1 E1]];
      destruct (Q.min_spec 100 (Qmax 0 p)) as [[H2 E2] | [H2 E2]];
      rewrite E2; rewrite ?E1 in *; repeat split; intros; try lra. }
  cbn [progress set_progress].
  destruct (Qeq_bool q 100) eqn:Heq.
  - apply Qeq_bool_iff in Heq.
    destruct (save_fields now
                (set_completedAt (Some now)
                   (set_completed true (set_progress q d))))
      as (Hc & Hp & Hs).
    rewrite Hc, Hp, Hs. cbn. repeat split; auto; try lra.
    rewrite save_completedAt; [cbn; eauto |].
    unfold consistent. cbn. split; eauto.
  - apply Qeq_bool_neq in Heq.
    destruct (save_fields now (set_progress q d)) as (Hc & Hp & Hs).
    rewrite Hc, Hp, Hs. cbn. repeat split; auto; try lra;
      try (exfalso; apply Heq; auto).
Qed.

(** X17: when no subtask has the given id, [toggleSubtask] throws
    "Subtask not found" and leaves the document as it was. *)
Theorem toggleSubtask_unknown now ident d
  (Hnone : forall st, st ∈ subtasks d -> st_id st <> ident) :
  toggleSubtask validate fl now ident d = Thrown "Subtask not found" d.
Proof.
  unfold toggleSubtask.
  assert (list_find (fun st => st_id st = ident) (subtasks d) = None) as ->;
    [| reflexivity].
  apply list_find_None, Forall_forall. exact Hnone.
Qed.

(** X18: when [toggleSubtask] finds the id, it flips the first
    subtask with that id and no other, so the number of completed subtasks
    moves by exactly one; it sets [progress] to an integer between 0 and
    100, the completed share rounded half up; and it never changes
    [completed], not even when every subtask is done. *)
Theorem toggleSubtask_found (Hfl : faithful_rounding fl) now ident d i st
  (Hfind : list_find (fun st => st_id st = ident) (subtasks d) = Some (i, st)) :
  let o := toggleSubtask validate fl now ident d in
  let d' := docOf o in
  (o = Saved d' \/ o = Rejected d') /\
  subtasks d' = alter flip i (subtasks d) /\
  doneCount (subtasks d') =
    doneCount (subtasks d) + (if st_completed st then -1 else 1) /\
  completed d' = completed d /\
  exists n,
    progress d' = inject_Z n /\ 0 <= n <= 100 /\
    round_half_up
      (multiply fl
         (divide fl (inject_Z (doneCount (subtasks d')))
                    (inject_Z (Z.of_nat (length (subtasks d')))))
         100) n.
Proof.
  cbn zeta. unfold toggleSubtask. rewrite Hfind.
  pose proof (proj1 (list_find_Some _ _ _ _) Hfind) as (Hi & _ & _).
  cbn [subtasks set_subtasks].
  set (l' := alter flip i (subtasks d)).
  assert (length l' = length (subtasks d)) as Hlen by apply length_alter.
  assert (0 < Z.of_nat (length l')) as Hpos.
  { rewrite Hlen. apply lookup_lt_Some in Hi. lia. }
  destruct (Z.gtb_spec (Z.of_nat (length l')) 0) as [_ | Hn]; [| lia].
  match goal with
  | |- context [save validate now ?x] =>
      destruct (save_fields now x) as (Hc & Hp & Hs);
      set (o := save validate now x) in *
  end.
  rewrite Hc, Hp, Hs. cbn [completed progress subtasks set_progress set_subtasks].
  split; [| split; [reflexivity | split; [| split; [reflexivity |]]]].
  - subst o. unfold save. destruct (validate now _); cbn [docOf]; auto.
  - now apply doneCount_alter_flip.
  - eexists. split; [reflexivity |]. split; [| apply Math_round_half_up].
    apply Math_round_bounds, (ratio_bounds fl Hfl);
      [apply doneCount_bounds | exact Hpos].
Qed.

(** X19: toggling the same subtask id twice gives back the subtask
    list the document started with. *)
Theorem toggleSubtask_twice now1 now2 ident d :
  subtasks (docOf (toggleSubtask validate fl now2 ident
                     (docOf (toggleSubtask validate fl now1 ident d)))) =
  subtasks d.
Proof.
  destruct (list_find (fun st => st_id st = ident) (subtasks d))
    as [[i st] |] eqn:Hfind.
  - assert (forall now d0 j x,
              list_find (fun st => st_id st = ident) (subtasks d0) = Some (j, x) ->
              subtasks (docOf (toggleSubtask validate fl now ident d0)) =
              alter flip j (subtasks d0)) as Hstep.
    { intros now d0 j x Hf. unfold toggleSubtask. rewrite Hf.
      match goal with
      | |- context [save validate now ?y] =>
          destruct (save_fields now y) as (_ & _ & ->)
      end.
      cbn [subtasks set_subtasks].
      destruct (_ >? 0); reflexivity. }
    rewrite (Hstep now2 _ i (flip st)).
    + rewrite (Hstep now1 d i st Hfind).
      rewrite list_alter_alter_eq.
      apply list_alter_id. intros x. apply flip_flip.
    + rewrite (Hstep now1 d i st Hfind).
      now apply list_find_alter_flip.
  - unfold toggleSubtask at 2. rewrite Hfind. cbn [docOf].
    unfold toggleSubtask. rewrite Hfind. reflexivity.
Qed.

(** X20: every method keeps the agreement between [completed] and
    [completedAt]: if [completedAt] is set exactly when the goal is
    completed before a call of [markComplete], [markIncomplete],
    [updateProgress] or [toggleSubtask], the same holds of the document
    after it, however the call ends. *)
Theorem methods_keep_consistency now p ident d
  (Hd : consistent d) :
  consistent (docOf (markComplete validate now d)) /\
  consistent (docOf (markIncomplete validate now d)) /\
  consistent (docOf (updateProgress validate now p d)) /\
  consistent (docOf (toggleSubtask validate fl now ident d)).
Proof.
  split; [| split; [| split]].
  - apply save_consistent. unfold consistent. cbn. split; eauto.
  - apply save_consistent. unfold consistent. cbn.
    split; [discriminate | intros [? ?]; discriminate].
  - unfold updateProgress. apply save_consistent.
    destruct (Qeq_bool _ 100); [unfold consistent; cbn; split; eauto |].
    exact Hd.
  - unfold toggleSubtask.
    destruct (list_find _ (subtasks d)) as [[i st] |]; [| exact Hd].
    apply save_consistent. destruct (_ >? 0); exact Hd.
Qed.

End WithSchema.

Lemma toggleSubtask_unknown_witness :
  toggleSubtask (fun _ _ => true) (fun x => x) 5 "s9" sampleDoc =
  Thrown "Subtask not found" sampleDoc.
Proof.
  apply toggleSubtask_unknown. intros st Hst.
  repeat (apply elem_of_cons in Hst as [-> | Hst]; [discriminate |]).
  now apply elem_of_nil in Hst.
Defined.

Lemma toggleSubtask_found_witness :
  completed (docOf (toggleSubtask (fun _ _ => true) (fun x => x) 5 "s1"
                      sampleDoc)) =
  completed sampleDoc.
Proof.
  pose proof (toggleSubtask_found (fun _ _ => true) (fun x => x)
                exact_arithmetic_faithful 5 "s1" sampleDoc 0%nat
                (mkSubtask "s1" "read" false 0) eq_refl)
    as (_ & _ & _ & Hcompleted & _).
  exact Hcompleted.
Defined.

Lemma methods_keep_consistency_witness :
  consistent (docOf (updateProgress (fun _ _ => true) 5 (75 # 1) sampleDoc)).
Proof.
  pose proof (methods_keep_consistency (fun _ _ => true) (fun x => x) 5
                (75 # 1) "s1" sampleDoc) as Hkeep.
  assert (consistent sampleDoc) as Hd.
  { split; [discriminate | intros [d Hd]; discriminate]. }
  destruct (Hkeep Hd) as (_ & _ & Hupdate & _). exact Hupdate.
Defined.

(** X21: a completed goal has 0 days remaining and is not overdue;
    for a goal that is not completed, [daysRemaining] is the number of
    days to the deadline rounded up, so it is at least 1 exactly when the
    deadline lies ahead, and a goal that is overdue by less than a day
    still shows 0 days remaining. *)
Theorem due_virtuals now d :
  (completed d = true -> daysRemaining now d = 0 /\ isOverdue now d = false) /\
  (completed d = false ->
     (daysRemaining now d - 1) * Calendar.msPerDay < deadline d - now
       <= daysRemaining now d * Calendar.msPerDay /\
     (isOverdue now d = true <-> deadline d < now)) /\
  (1 <= daysRemaining now d <-> completed d = false /\ now < deadline d) /\
  (isOverdue now d = true -> daysRemaining now d <= 0) /\
  (completed d = false -> deadline d < now ->
   now < deadline d + Calendar.msPerDay -> daysRemaining now d = 0).
Proof.
  pose proof CalendarFacts.msPerDay_pos as Hpos.
  unfold daysRemaining, isOverdue.
  destruct (completed d); cbn zeta.
  - repeat split; intros; try discriminate; try lia.
  - pose proof (Z.div_mod (- (deadline d - now)) Calendar.msPerDay) as Hdm.
    pose proof (Z.mod_pos_bound (- (deadline d - now)) Calendar.msPerDay Hpos)
      as Hmod.
    set (q := (- (deadline d - now)) / Calendar.msPerDay) in *.
    set (r := (- (deadline d - now)) mod Calendar.msPerDay) in *.
    specialize (Hdm ltac:(lia)).
    destruct (Z.gtb_spec now (deadline d)).
    + repeat split; intros; try discriminate; try nia.
    + repeat split; intros; try discriminate; try nia.
Qed.

End GoalDocumentFacts.

(** ** Authentication middleware *)

Module AuthFacts.
Import Auth.

Lemma substring_whole s : String.substring 0 (String.length s) s = s.
Proof. induction s as [| c s IH]; cbn; [reflexivity | now rewrite IH]. Qed.

Lemma prefix_append s t : String.prefix s (String.append s t) = true.
Proof.
  induction s as [| c s IH]; simpl; [now destruct t |].
  destruct (Ascii.ascii_dec c c); [exact IH | congruence].
Qed.

Lemma prefix_inv s : forall h,
  String.prefix s h = true -> exists t, h = String.append s t.
Proof.
  induction s as [| c s IH]; intros h Hp.
  - exists h. reflexivity.
  - destruct h as [| c' h]; [discriminate |]. simpl in Hp.
    destruct (Ascii.ascii_dec c c') as [<- |]; [| discriminate].
    destruct (IH h Hp) as [t ->]. exists t. reflexivity.
Qed.

Lemma substring7_bearer token :
  substring7 (String.append "Bearer " token) = token.
Proof.
  change (String.substring 0 (String.length token - 0) token = token).
  rewrite Nat.sub_0_r. apply substring_whole.
Qed.

Lemma bearer_not_empty token : String.eqb (String.append "Bearer " token) "" = false.
Proof. reflexivity. Qed.

(** The header of a request with a bearer token. *)
Local Abbreviation bearer token := (Some (String.append "Bearer " token)).

Section WithFirebase.
Variable firebaseAdmin : bool.
Variable verifyIdToken : string -> option User.

Lemma authenticateUser_bearer token :
  authenticateUser firebaseAdmin verifyIdToken (bearer token) =
  if firebaseAdmin then
    match verifyIdToken token with
    | Some u => Next (Some u)
    | None => Respond 401 "Invalid token"
    end
  else if (20 <? String.length token)%nat then Next (Some devUser)
  else Respond 401 "Invalid token format".
Proof.
  unfold authenticateUser, truthy.
  rewrite bearer_not_empty, prefix_append, substring7_bearer. cbn [negb orb].
  destruct firebaseAdmin; [reflexivity |].
  destruct token as [| c token]; [reflexivity |]. reflexivity.
Qed.

Lemma authenticateUser_no_bearer h :
  (forall token, h <> bearer token) ->
  authenticateUser firebaseAdmin verifyIdToken h =
  Respond 401 "No token provided".
Proof.
  intros Hno. unfold authenticateUser. destruct h as [h |]; [| reflexivity].
  destruct (String.prefix "Bearer " h) eqn:Hp.
  - apply prefix_inv in Hp as [t ->]. now destruct (Hno t).
  - now rewrite orb_true_r.
Qed.

(** X24: [authenticateUser] hands a request on only when its
    Authorization header is "Bearer " followed by a token, and then with a
    user: with Firebase the user [verifyIdToken] decodes from the token,
    without it the fixed development user for any token of more than 20
    characters, whatever the token is.  Every other request is answered
    with status 401. *)
Theorem authenticateUser_accepts h :
  (forall user,
     authenticateUser firebaseAdmin verifyIdToken h = Next user <->
     exists token u,
       h = bearer token /\ user = Some u /\
       if firebaseAdmin then verifyIdToken token = Some u
       else (20 < String.length token)%nat /\ u = devUser) /\
  (forall st err,
     authenticateUser firebaseAdmin verifyIdToken h = Respond st err ->
     st = 401).
Proof.
  assert ((exists token, h = bearer token) \/ forall token, h <> bearer token)
    as [[token ->] | Hno].
  { destruct h as [h |]; [| right; discriminate].
    destruct (String.prefix "Bearer " h) eqn:Hp.
    - apply prefix_inv in Hp as [t ->]. left. eauto.
    - right. intros t [= ->]. now rewrite prefix_append in Hp. }
  - rewrite authenticateUser_bearer. split.
    + intros user. split.
      * intros Hnext. exists token.
        destruct firebaseAdmin.
        -- destruct (verifyIdToken token) as [u |] eqn:Hv; [| discriminate].
           injection Hnext as <-. eauto.
        -- destruct (Nat.ltb_spec 20 (String.length token)); [| discriminate].
           injection Hnext as <-. eauto.
      * intros (token' & u & Heq & -> & Hu).
        assert (token' = token) as ->.
        { assert (substring7 (String.append "Bearer " token') =
                  substring7 (String.append "Bearer " token)) as H7
            by congruence.
          now rewrite !substring7_bearer in H7. }
        destruct firebaseAdmin.
        -- now rewrite Hu.
        -- destruct Hu as [Hlen ->].
           now destruct (Nat.ltb_spec 20 (String.length token)); [| lia].
    + intros st err.
      destruct firebaseAdmin.
      * destruct (verifyIdToken token); [discriminate |]. now intros [= <- _].
      * destruct (_ <? _)%nat; [discriminate |]. now intros [= <- _].
  - rewrite (authenticateUser_no_bearer h Hno). split.
    + intros user. split; [discriminate |].
      intros (token & u & -> & _). now destruct (Hno token).
    + now intros st err [= <- _].
Qed.

(** X25: [optionalAuth] never answers a request itself: it always
    hands it on, with a user only when the header is "Bearer " followed by
    a token; with Firebase the token must verify, without it every bearer
    header, even one with an empty token, yields the development user. *)
Theorem optionalAuth_never_rejects h :
  (exists user, optionalAuth firebaseAdmin verifyIdToken h = Next user) /\
  (forall u,
     optionalAuth firebaseAdmin verifyIdToken h = Next (Some u) <->
     exists token,
       h = bearer token /\
       if firebaseAdmin then verifyIdToken token = Some u else u = devUser).
Proof.
  assert ((exists token, h = bearer token) \/ forall token, h <> bearer token)
    as [[token ->] | Hno].
  { destruct h as [h |]; [| right; discriminate].
    destruct (String.prefix "Bearer " h) eqn:Hp.
    - apply prefix_inv in Hp as [t ->]. left. eauto.
    - right. intros t [= ->]. now rewrite prefix_append in Hp. }
  - unfold optionalAuth, truthy.
    rewrite bearer_not_empty, prefix_append, substring7_bearer. cbn [negb andb].
    split.
    + destruct firebaseAdmin; [destruct (verifyIdToken token) |]; eauto.
    + intros u. split.
      * intros Hnext. exists token. split; [reflexivity |].
        destruct firebaseAdmin.
        -- destruct (verifyIdToken token); congruence.
        -- congruence.
      * intros (token' & Heq & Hu).
        assert (token' = token) as ->.
        { assert (substring7 (String.append "Bearer " token') =
                  substring7 (String.append "Bearer " token)) as H7
            by congruence.
          now rewrite !substring7_bearer in H7. }
        destruct firebaseAdmin; [now rewrite Hu | now subst].
  - assert (optionalAuth firebaseAdmin verifyIdToken h = Next None) as ->.
    { unfold optionalAuth. destruct h as [h |]; [| reflexivity].
      destruct (String.prefix "Bearer " h) eqn:Hp.
      - apply prefix_inv in Hp as [t ->]. now destruct (Hno t).
      - now rewrite andb_false_r. }
    split; [eauto |]. intros u. split; [discriminate |].
    intros (token & -> & _). now destruct (Hno token).
Qed.

End WithFirebase.

Lemma includes_prefix needle s :
  String.prefix needle s = true -> includes needle s = true.
Proof. intros Hp. destruct s; cbn [includes]; now rewrite Hp. Qed.

Lemma includes_spec needle s :
  includes needle s = true <->
  exists s1 s2, s = String.append s1 (String.append needle s2).
Proof.
  split.
  - induction s as [| c s IH]; cbn [includes].
    + rewrite orb_false_r. intros Hp. apply prefix_inv in Hp as [t Ht].
      exists EmptyString, t. exact Ht.
    + intros [Hp | Hrest]%orb_true_iff.
      * apply prefix_inv in Hp as [t Ht]. exists EmptyString, t. exact Ht.
      * destruct (IH Hrest) as (s1 & s2 & ->).
        exists (String c s1), s2. reflexivity.
  - intros (s1 & s2 & ->). induction s1 as [| c s1 IH].
    + change (String.append EmptyString (String.append needle s2))
        with (String.append needle s2).
      apply includes_prefix, prefix_append.
    + change (String.append (String c s1) (String.append needle s2))
        with (String c (String.append s1 (String.append needle s2))).
      cbn [includes]. rewrite IH. apply orb_true_r.
Qed.

(** X26: [requireAdmin] lets a request pass exactly when it has a
    user whose email contains "admin" anywhere in it; a request without
    user gets 401 and any other gets 403.  The development user does not
    pass. *)
Theorem requireAdmin_accepts user :
  (forall u',
     requireAdmin user = Next u' <->
     exists u s1 s2,
       user = Some u /\ u' = Some u /\
       email u = Some (String.append s1 (String.append "admin" s2))) /\
  (forall st err, requireAdmin user = Respond st err ->
     (st = 401 /\ user = None) \/ (st = 403 /\ user <> None)) /\
  requireAdmin (Some devUser) = Respond 403 "Admin access required".
Proof.
  split; [| split; [| reflexivity]].
  - intros u'. unfold requireAdmin. destruct user as [u |].
    + destruct (email u) as [e |] eqn:He; cbn [truthy].
      * change (default "" (Some e)) with e.
        destruct (includes "admin" e) eqn:Hinc.
        -- assert (String.eqb e "" = false) as ->.
           { destruct e; [discriminate | reflexivity]. }
           cbn [negb andb]. apply includes_spec in Hinc as (s1 & s2 & ->).
           split; [intros [= <-]; eauto 6 |].
           intros (u0 & t1 & t2 & [= <-] & -> & _). reflexivity.
        -- rewrite andb_false_r. split; [discriminate |].
           intros (u0 & t1 & t2 & [= <-] & -> & Hmail).
           rewrite He in Hmail. injection Hmail as ->.
           assert (includes "admin" (String.append t1 (String.append "admin" t2))
                   = true) by (apply includes_spec; eauto).
           congruence.
      * split; [discriminate |].
        intros (u0 & t1 & t2 & [= <-] & _ & Hmail). congruence.
    + split; [discriminate |]. intros (u0 & _ & _ & Hu & _). discriminate.
  - intros st err. unfold requireAdmin. destruct user as [u |].
    + destruct (_ && _); [discriminate |]. intros [= <- _]. right. auto.
    + intros [= <- _]. left. auto.
Qed.

End AuthFacts.

(** ** Server: CORS and errors *)

Module ServerFacts.
Import Auth AuthFacts Server.

Lemma no_comma_cons c s :
  no_comma (String c s) ->
  String.eqb (String c EmptyString) "," = false /\ no_comma s.
Proof.
  unfold no_comma. cbn [includes]. intros [Hp Hs]%orb_false_iff.
  split; [| exact Hs].
  destruct (String.eqb (String c EmptyString) ",") eqn:E; [| reflexivity].
  apply String.eqb_eq in E. injection E as ->.
  simpl in Hp. now destruct s.
Qed.

Lemma split_comma_no_comma s : no_comma s -> split_comma s = [s].
Proof.
  induction s as [| c s IH]; intros Hs; [reflexivity |].
  apply no_comma_cons in Hs as [Hc Hs].
  cbn [split_comma]. now rewrite Hc, (IH Hs).
Qed.

Lemma split_comma_append a b :
  no_comma a ->
  split_comma (String.append a (String.append "," b)) = a :: split_comma b.
Proof.
  induction a as [| c a IH]; intros Ha; [reflexivity |].
  apply no_comma_cons in Ha as [Hc Ha].
  change (String.append (String c a) (String.append "," b))
    with (String c (String.append a (String.append "," b))).
  cbn [split_comma]. now rewrite Hc, (IH Ha).
Qed.

Lemma split_join pieces :
  pieces <> [] -> Forall no_comma pieces ->
  split_comma (join_comma pieces) = pieces.
Proof.
  induction pieces as [| piece rest IH]; intros Hne Hall; [done |].
  apply Forall_cons in Hall as [Hp Hrest].
  destruct rest as [| piece' rest].
  - now apply split_comma_no_comma.
  - change (join_comma (piece :: piece' :: rest))
      with (String.append piece
              (String.append "," (join_comma (piece' :: rest)))).
    rewrite split_comma_append by exact Hp.
    now rewrite IH.
Qed.

(** X27: a request passes the CORS origin check exactly when it
    carries no origin (or an empty one) or its origin is one of the allowed
    ones; these are the comma-separated entries of [ALLOWED_ORIGINS],
    taken as they are written, or [http://localhost:5500] alone when the
    variable is not set; and the error of a rejected origin is answered by
    the error handler with 403 "CORS policy violation". *)
Theorem cors_origin_check env origin :
  (corsOrigin env origin = None <->
   origin = None \/ origin = Some EmptyString \/
   exists o, origin = Some o /\ o ∈ allowedOrigins env) /\
  (forall err, corsOrigin env origin = Some err ->
     errorHandler err = mkErrorResponse 403 "CORS policy violation" []) /\
  allowedOrigins None = ["http://localhost:5500"] /\
  (forall pieces, pieces <> [] -> Forall no_comma pieces ->
     allowedOrigins (Some (join_comma pieces)) = pieces).
Proof.
  split; [| split; [| split; [reflexivity |]]].
  - unfold corsOrigin. destruct origin as [o |]; cbn [truthy negb default].
    + destruct (String.eqb o "") eqn:Ho; cbn [negb].
      * apply String.eqb_eq in Ho as ->. split; auto.
      * apply String.eqb_neq in Ho.
        change (default "" (Some o)) with o.
        destruct (decide (o ∈ allowedOrigins env)) as [Hin | Hout].
        -- rewrite bool_decide_eq_true_2 by exact Hin. split; eauto.
        -- rewrite bool_decide_eq_false_2 by exact Hout.
           split; [discriminate |].
           intros [? | [[= ->] | (o' & [= <-] & Hin)]]; done.
    + split; auto.
  - intros err. unfold corsOrigin.
    destruct (negb (truthy origin)); [discriminate |].
    destruct (bool_decide _); [discriminate |].
    intros [= <-]. reflexivity.
  - intros pieces Hne Hall. cbn [allowedOrigins]. now apply split_join.
Qed.

End ServerFacts.

(** ** Goal routes *)

Module GoalRoutesFacts.
Import Stats GoalRoutes.

Section WithStore.
Variable castable : string -> bool.

Local Ltac settle :=
  intros;
  repeat match goal with
         | H : _ /\ _ |- _ => destruct H
         | H : ex _ |- _ => destruct H
         end;
  simplify_eq; eauto; done.

(** X22: a user reads a goal only if the goal is stored under the
    requested id and is the user's own; a delete request removes a goal
    only under the same condition and otherwise leaves the collection as it
    was; after a successful delete the same id answers 404 and every other
    goal is still there. *)
Theorem goal_access user ident store :
  let r := getGoal castable user ident store in
  let r' := (deleteGoal castable user ident store).1 in
  let store' := (deleteGoal castable user ident store).2 in
  (forall g, r = GoalJson 200 g <->
     castable ident = true /\ store !! ident = Some g /\ userId g = user) /\
  (statusOf r = 200 <-> exists g, r = GoalJson 200 g) /\
  (statusOf r' = 200 <->
     castable ident = true /\
     exists g, store !! ident = Some g /\ userId g = user) /\
  (statusOf r' <> 200 -> store' = store) /\
  (statusOf r' = 200 ->
     store' = delete ident store /\
     getGoal castable user ident store' = ErrorJson 404 "Goal not found") /\
  (forall other, other <> ident -> store' !! other = store !! other).
Proof.
  cbn zeta. unfold getGoal, deleteGoal.
  destruct (castable ident) eqn:Hcast.
  - destruct (store !! ident) as [g |] eqn:Hlook.
    + destruct (decide (userId g = user)) as [Hu | Hu].
      * rewrite bool_decide_eq_false_2 by (intros ?; done).
        cbn [fst snd statusOf]. rewrite lookup_delete_eq.
        repeat split; try done;
          try (intros; now apply lookup_delete_ne); settle.
      * rewrite bool_decide_eq_true_2 by exact Hu.
        cbn [fst snd statusOf].
        repeat split; try done; settle.
    + cbn [fst snd statusOf].
      repeat split; try done; settle.
  - cbn [fst snd statusOf].
    repeat split; try done; settle.
Qed.

End WithStore.
End GoalRoutesFacts.

(** ** Updating a goal *)

Module GoalUpdateFacts.
Import GoalDocument GoalUpdate.

Lemma buildUpdates_completion now body :
  match u_completed body with
  | Some v =>
      if truthy v
      then u_completedAt (buildUpdates now body) = Some (Some now) /\
           u_progress (buildUpdates now body) = Some 100%Q
      else u_completedAt (buildUpdates now body) = Some None /\
           u_progress (buildUpdates now body) = u_progress body
  | None =>
      u_completedAt (buildUpdates now body) = None /\
      u_progress (buildUpdates now body) = u_progress body
  end /\
  u_completed (buildUpdates now body) = u_completed body.
Proof.
  unfold buildUpdates. cbn [u_completed].
  destruct (u_completed body) as [v |]; [destruct (truthy v) |]; cbn; auto.
Qed.

(** A falsy value is never cast to [true]. *)
Lemma castBoolean_falsy castComposite v :
  truthy v = false -> castBoolean castComposite v <> CastTo (Some true).
Proof.
  destruct v as [| b | x | neg | s | items | members]; cbn;
    try discriminate.
  - intros ->. discriminate.
  - intros Hzero. apply negb_false_iff in Hzero.
    destruct (Qeq_bool x 1) eqn:Hone.
    + apply Qeq_bool_iff in Hzero, Hone. rewrite Hzero in Hone.
      discriminate Hone.
    + rewrite Hzero. discriminate.
  - intros Hempty. apply negb_false_iff, String.eqb_eq in Hempty.
    subst s. cbn. discriminate.
Qed.

Section WithStore.
Variable castable : string -> bool.
Variable validators : Z -> Updates -> bool.
Variable castComposite : Json -> CastResult.

Local Abbreviation put := (putGoal castable validators castComposite).

(** What a successful [PUT] stores. *)
Lemma putGoal_updated now user ident body store g' :
  (put now user ident body store).1 = UpdatedJson g' ->
  exists g flag,
    store !! ident = Some g /\ g_userId g = user /\
    castCompleted castComposite (u_completed body) = Some flag /\
    g' = applySet (buildUpdates now body) flag g /\
    (put now user ident body store).2 = <[ident := g']> store.
Proof.
  unfold putGoal.
  destruct (castable ident); [| discriminate].
  destruct (store !! ident) as [g |] eqn:Hlook; [| discriminate].
  destruct (decide (g_userId g = user)) as [Hu | Hu].
  2:{ rewrite bool_decide_eq_true_2 by exact Hu. discriminate. }
  rewrite bool_decide_eq_false_2 by (intros ?; done).
  pose proof (buildUpdates_completion now body) as [_ Hc].
  cbn zeta. rewrite Hc.
  destruct (castCompleted castComposite (u_completed body)) as [flag |];
    [| discriminate].
  destruct (validators now (buildUpdates now body)); [| discriminate].
  cbn [fst snd]. intros [= <-]. exists g, flag. auto.
Qed.

Lemma putGoal_error now user ident body store st e :
  (put now user ident body store).1 = PutError st e ->
  (put now user ident body store).2 = store.
Proof.
  unfold putGoal.
  destruct (castable ident); [| reflexivity].
  destruct (store !! ident) as [g |]; [| reflexivity].
  destruct (bool_decide (g_userId g <> user)); [reflexivity |].
  cbn zeta.
  destruct (castCompleted castComposite _); [| reflexivity].
  destruct (validators now (buildUpdates now body)); [discriminate |].
  reflexivity.
Qed.

Lemma putGoal_others now user ident body store other :
  other <> ident ->
  (put now user ident body store).2 !! other = store !! other.
Proof.
  intros Hne.
  destruct (put now user ident body store).1 as [g' | st e] eqn:Hr.
  - apply putGoal_updated in Hr as (g & flag & _ & _ & _ & _ & ->).
    now apply lookup_insert_ne.
  - now rewrite (putGoal_error _ _ _ _ _ _ _ Hr).
Qed.


End WithStore.


End GoalUpdateFacts.
